(** * PPO self-play training script of TabletopGames' Python interface

    A shallow embedding of [examples/ppo-selfplay.py] and of the module
    [pytag/utils/common.py] it imports from.  Tensors are lists (a
    [num_steps x num_envs] buffer is a list of rows), Python exceptions are
    the [Raise] results of a small error monad, and the random generators
    are threaded explicitly. *)

From Stdlib Require Import ZArith QArith Lia.
From stdpp Require Import base option list strings pretty gmap.

Local Open Scope Z_scope.
Local Open Scope nat_scope.

(** ** Exceptions and the error monad *)

Inductive exn : Type :=
  | IndexError
  | ValueError
  | RuntimeError
  | ZeroDivisionError
  | AttributeError (obj attr : string)
  | ImportError (module name : string)
  | ModuleNotFoundError (module : string).

Inductive result (A : Type) : Type :=
  | Ok (a : A)
  | Raise (e : exn).
Arguments Ok {A} a.
Arguments Raise {A} e.

Definition bind {A B : Type} (m : result A) (k : A -> result B) : result B :=
  match m with
  | Ok a => k a
  | Raise e => Raise e
  end.

Notation "'let*' x ':=' m 'in' k" := (bind m (fun x => k))
  (at level 10, x pattern, m at level 100, k at level 200).

Definition is_ok {A : Type} (m : result A) : bool :=
  match m with Ok _ => true | Raise _ => false end.

(** ** Tensor indexing *)

(** An index [k] into a dimension of size [n]: a negative index counts from
    the end, anything outside [-n, n) raises IndexError. *)
Definition norm_index (n : nat) (k : Z) : result nat :=
  if ((0 <=? k) && (k <? Z.of_nat n))%Z then Ok (Z.to_nat k)
  else if ((- Z.of_nat n <=? k) && (k <? 0))%Z then Ok (Z.to_nat (k + Z.of_nat n))
  else Raise IndexError.

(** [l[j]] for a loop counter [j >= 0]. *)
Definition getitem {A : Type} (l : list A) (j : nat) : result A :=
  match l !! j with
  | Some a => Ok a
  | None => Raise IndexError
  end.

(** Truth value of an integer tensor element ([if indices[i]:]). *)
Definition truthy (b : Z) : bool := negb (b =? 0)%Z.

(** [sum(train_ids)] / the number of set entries of a 0/1 vector. *)
Definition count_true (indices : list Z) : nat :=
  length (filter (fun b => truthy b = true) indices).

(** A trajectory buffer [Batch, num-envs]: a list of rows. *)
Abbreviation buffer V := (list (list V)) (only parsing).

Section Buffers.
Context {V : Type}.

Definition cell (buf : buffer V) (r i : nat) : option V :=
  buf !! r ≫= (fun row => row !! i).

(** [shape buf B N]: [B] rows of [N] columns each. *)
Definition shape (buf : buffer V) (B N : nat) : Prop :=
  length buf = B /\ Forall (fun row => length row = N) buf.

(** [buffer[r, i] = v] *)
Definition set_cell (buf : buffer V) (r : Z) (i : nat) (v : V) : result (buffer V) :=
  let* r' := norm_index (length buf) r in
  match buf !! r' with
  | Some row =>
      if decide (i < length row) then Ok (<[r' := <[i := v]> row]> buf)
      else Raise IndexError
  | None => Raise IndexError
  end.

(** The loop of [insert_at_indices]: [indices] is what is left of the
    filter from position [i] on, [j] the number of rows of [values]
    consumed so far. *)
Fixpoint insert_loop (buf : buffer V) (global_step : list Z) (values : list V)
    (indices : list Z) (i j : nat) : result (buffer V) :=
  match indices with
  | [] => Ok buf
  | b :: rest =>
      if truthy b then
        let* v := getitem values j in
        let* c := getitem global_step i in
        let* buf' := set_cell buf c i v in
        insert_loop buf' global_step values rest (S i) (S j)
      else insert_loop buf global_step values rest (S i) j
  end.

(** [insert_at_indices(buffer, global_step, indices, values)]; the buffer
    that Python mutates in place is returned. *)
Definition insert_at_indices (buf : buffer V) (global_step : list Z)
    (indices : list Z) (values : list V) : result (buffer V) :=
  if decide (0 < length values) then insert_loop buf global_step values indices 0 0
  else Ok buf.

End Buffers.

(** ** Splitting observations and merging actions *)

(** A two-dimensional tensor: its rows and its last dimension
    ([shape[-1]], which a tensor keeps when it has no rows). *)
Record tensor2 (A : Type) : Type := Tensor2 { rows : list (list A); ncols : nat }.
Arguments Tensor2 {A} rows ncols.
Arguments rows {A} t.
Arguments ncols {A} t.

Definition wf_tensor2 {A : Type} (t : tensor2 A) : Prop :=
  Forall (fun row => length row = ncols t) (rows t).

Section Split.
Context {A : Type}.

(** [filter.unsqueeze(-1).repeat(1, D)] *)
Definition repeat_last (filter : list bool) (D : nat) : list (list bool) :=
  map (fun b => replicate D b) filter.

(** [~m] on a boolean tensor. *)
Definition invert (m : list (list bool)) : list (list bool) :=
  map (map negb) m.

Fixpoint select_row (row : list A) (m : list bool) : list A :=
  match row, m with
  | a :: row', b :: m' =>
      if b then a :: select_row row' m' else select_row row' m'
  | _, _ => []
  end.

(** [t[m]] for a boolean mask of the shape of [t]: the selected elements
    in row-major order, as a one-dimensional tensor. *)
Definition masked_select (t : list (list A)) (m : list (list bool)) : result (list A) :=
  if decide (map length t = map length m) then Ok (concat (zip_with select_row t m))
  else Raise IndexError.

Fixpoint chunks (n D : nat) (xs : list A) : list (list A) :=
  match n with
  | O => []
  | S n' => take D xs :: chunks n' D (drop D xs)
  end.

(** [xs.reshape(-1, D)] *)
Definition reshape_rows (xs : list A) (D : nat) : result (tensor2 A) :=
  if decide (D = 0) then Raise RuntimeError
  else if decide (length xs `mod` D = 0) then Ok (Tensor2 (chunks (length xs `div` D) D xs) D)
  else Raise RuntimeError.

(** One line of [split_obs]: [t[f].reshape(-1, D), t[~f].reshape(-1, D)]. *)
Definition split_tensor (t : tensor2 A) (filter : list bool) : result (tensor2 A * tensor2 A) :=
  let t_filter := repeat_last filter (ncols t) in
  let* sel := masked_select (rows t) t_filter in
  let* t_ := reshape_rows sel (ncols t) in
  let* opp_sel := masked_select (rows t) (invert t_filter) in
  let* opp_t := reshape_rows opp_sel (ncols t) in
  Ok (t_, opp_t).

(** The rows of [t] at which the filter has the value [keep], in order. *)
Fixpoint group_of (keep : bool) (t : list (list A)) (filter : list bool) : list (list A) :=
  match t, filter with
  | row :: t', b :: filter' =>
      if bool_decide (b = keep) then row :: group_of keep t' filter'
      else group_of keep t' filter'
  | _, _ => []
  end.
End Split.

(** [split_obs(obs, mask, filter)] *)
Definition split_obs {O M : Type} (obs : tensor2 O) (mask : tensor2 M) (filter : list bool)
    : result ((tensor2 O * tensor2 O) * (tensor2 M * tensor2 M)) :=
  let* (obs_, opp_obs) := split_tensor obs filter in
  let* (mask_, opp_mask) := split_tensor mask filter in
  Ok ((obs_, opp_obs), (mask_, opp_mask)).

(** [b.int()] *)
Definition to_int (b : bool) : Z := if b then 1%Z else 0%Z.

Section Merge.
Context {A : Type} (zero : A).

(** [l[k] = a] on a one-dimensional tensor. *)
Definition setitem (l : list A) (k : nat) (a : A) : result (list A) :=
  if decide (k < length l) then Ok (<[k := a]> l) else Raise IndexError.

Fixpoint merge_loop (results actions opp_actions : list A) (train_ids : list Z)
    (i j : nat) : result (list A) :=
  match train_ids with
  | [] => Ok results
  | id :: rest =>
      if truthy id then
        let* a := getitem actions i in
        let* results' := setitem results (i + j) a in
        merge_loop results' actions opp_actions rest (S i) j
      else
        let* a := getitem opp_actions j in
        let* results' := setitem results (i + j) a in
        merge_loop results' actions opp_actions rest i (S j)
  end.

(** [merge_actions(train_ids, actions, opp_actions)] *)
Definition merge_actions (train_ids : list Z) (actions opp_actions : list A) : result (list A) :=
  let results := replicate (length actions + length opp_actions) zero in
  merge_loop results actions opp_actions train_ids 0 0.
End Merge.

(** ** Random generators *)

(** The interface of Python's [random.Random] that the script uses; the
    module-level functions of [random] are the methods of one hidden
    instance, the global generator. *)
Class RandomGen (G : Type) : Type := {
  Random : Z -> G;                        (* random.Random(seed) *)
  random : G -> Q * G;                    (* rnd.random(), in [0, 1) *)
  randbelow : G -> Z -> Z * G             (* rnd._randbelow(n), in [0, n) *)
}.

(** [rnd.randint(a, b)], that is [rnd.randrange(a, b + 1)]: [a] plus a draw
    below the width of the range; an empty range raises. *)
Definition randint `{RandomGen G} (g : G) (a b : Z) : result (Z * G) :=
  if (b <? a)%Z then Raise ValueError
  else let '(r, g') := randbelow g (b - a + 1) in Ok ((a + r)%Z, g').

(** What a generator promises about its draws. *)
Class RandomGenLaws (G : Type) `{RandomGen G} : Prop := {
  randbelow_bound : forall g n, (0 < n)%Z -> (0 <= (randbelow g n).1 < n)%Z
}.

(** ** Bounded double-ended queues *)

Record deque (A : Type) : Type := Deque { items : list A; maxlen : nat }.
Arguments Deque {A} items maxlen.
Arguments items {A} d.
Arguments maxlen {A} d.

(** [deque(maxlen=n)]: a negative bound is refused. *)
Definition deque_new {A : Type} (n : Z) : result (deque A) :=
  if (n <? 0)%Z then Raise ValueError else Ok (Deque [] (Z.to_nat n)).

(** [d.append(x)]: add on the right, then drop from the left down to the
    bound. *)
Definition deque_append {A : Type} (d : deque A) (x : A) : deque A :=
  let l := items d ++ [x] in
  Deque (if decide (maxlen d < length l) then drop 1 l else l) (maxlen d).

(** [d[k]] *)
Definition deque_getitem {A : Type} (d : deque A) (k : Z) : result A :=
  let* k' := norm_index (length (items d)) k in getitem (items d) k'.

(** The attributes of [collections.deque] objects. *)
Definition deque_attributes : list string :=
  ["append"; "appendleft"; "clear"; "copy"; "count"; "extend"; "extendleft";
   "index"; "insert"; "pop"; "popleft"; "remove"; "reverse"; "rotate"; "maxlen"]%string.

(** Attribute lookup [d.name] on a deque. *)
Definition deque_getattr (name : string) : result unit :=
  if decide (name ∈ deque_attributes) then Ok ()
  else Raise (AttributeError "collections.deque" name).

(** ** The self-play assistant *)

(** The [step] argument of [add_checkpoint]: a Python number or a scalar
    tensor. *)
Inductive step_arg : Type :=
  | PyInt (z : Z)
  | TensorScalar (z : Z).

(** [os.path.join(dir, name)] for a relative [name]. *)
Definition ends_with_slash (s : string) : bool :=
  match String.get (String.length s - 1) s with
  | Some c => Ascii.eqb c (Ascii.ascii_of_nat 47)
  | None => false
  end.

Definition path_join (dir name : string) : string :=
  if decide (dir = EmptyString) then name
  else if ends_with_slash dir then dir +:+ name
  else dir +:+ "/" +:+ name.

Section SelfPlay.
Context {Agent G : Type} `{RandomGen G}.

(** A pool entry: the name of a saved checkpoint or a network kept in
    memory. *)
Inductive entry : Type :=
  | Path (checkpoint_name : string)
  | Instance (agent : Agent).

Record SelfPlayAssistant : Type := {
  checkpoint_freq : Z;
  window : Z;
  replace_freq : Z;
  self_play_prob : Q;
  checkpoints : deque entry;
  save_steps : deque Z;
  save_checkpoints : bool;
  checkpoint_dir : string;
  seed : Z;
  rnd : G
}.

(** [not seed] for an optional integer. *)
Definition seed_absent (s : option Z) : bool :=
  match s with
  | None => true
  | Some z => (z =? 0)%Z
  end.

(** [SelfPlayAssistant.__init__]; [g] is the global generator of the
    [random] module.  The creation of [checkpoint_dir] is left out. *)
Definition init (checkpoint_freq_ window_ replace_freq_ : Z) (self_play_prob_ : Q)
    (save_checkpoints_ : bool) (checkpoint_dir_ : string) (seed_ : option Z) (g : G)
    : result (SelfPlayAssistant * G) :=
  let* cps := deque_new window_ in
  let* sts := deque_new window_ in
  let* (s, g') :=
    if seed_absent seed_ then randint g 0 100000 else Ok (default 0%Z seed_, g) in
  Ok ({| checkpoint_freq := checkpoint_freq_; window := window_;
         replace_freq := replace_freq_; self_play_prob := self_play_prob_;
         checkpoints := cps; save_steps := sts;
         save_checkpoints := save_checkpoints_; checkpoint_dir := checkpoint_dir_;
         seed := s; rnd := Random s |}, g').

Definition with_pool (self : SelfPlayAssistant) (cps : deque entry) (sts : deque Z)
    : SelfPlayAssistant :=
  {| checkpoint_freq := checkpoint_freq self; window := window self;
     replace_freq := replace_freq self; self_play_prob := self_play_prob self;
     checkpoints := cps; save_steps := sts;
     save_checkpoints := save_checkpoints self; checkpoint_dir := checkpoint_dir self;
     seed := seed self; rnd := rnd self |}.

Definition with_rnd (self : SelfPlayAssistant) (g : G) : SelfPlayAssistant :=
  {| checkpoint_freq := checkpoint_freq self; window := window self;
     replace_freq := replace_freq self; self_play_prob := self_play_prob self;
     checkpoints := checkpoints self; save_steps := save_steps self;
     save_checkpoints := save_checkpoints self; checkpoint_dir := checkpoint_dir self;
     seed := seed self; rnd := g |}.

(** [update_pool(self, agent, steps)]; [fs] is the storage that
    [torch.save] writes to. *)
Definition update_pool (self : SelfPlayAssistant) (fs : gmap string Agent)
    (agent : Agent) (steps : Z) : SelfPlayAssistant * gmap string Agent :=
  if save_checkpoints self then
    let checkpoint_name :=
      path_join (checkpoint_dir self) ("checkpoint_" +:+ pretty steps +:+ ".pt") in
    (with_pool self (deque_append (checkpoints self) (Path checkpoint_name))
                    (deque_append (save_steps self) steps),
     <[checkpoint_name := agent]> fs)
  else
    (with_pool self (deque_append (checkpoints self) (Instance agent))
                    (deque_append (save_steps self) steps),
     fs).

(** The index that [sample_opponent] draws, with the generator after the
    draws. *)
Definition sample_id (self : SelfPlayAssistant) : result (Z * G) :=
  let '(u, g) := random (rnd self) in
  let n := Z.of_nat (length (items (checkpoints self))) in
  if Qlt_le_dec u (self_play_prob self) then Ok ((n - 1)%Z, g)
  else randint g 0 (n - 1).

(** [torch.load(name)] *)
Definition torch_load (fs : gmap string Agent) (e : entry) : result Agent :=
  match e with
  | Path name =>
      match fs !! name with
      | Some a => Ok a
      | None => Raise RuntimeError
      end
  | Instance _ => Raise RuntimeError
  end.

(** [sample_opponent(self)]: the object returned (in memory mode, what
    the pool holds at the index), the assistant with its generator
    advanced, and the index and timestep that are printed. *)
Definition sample_opponent (self : SelfPlayAssistant) (fs : gmap string Agent)
    : result (entry * SelfPlayAssistant * (Z * Z)) :=
  let* (checkpoint_id, g) := sample_id self in
  let self' := with_rnd self g in
  let* timestep := deque_getitem (save_steps self) checkpoint_id in
  if save_checkpoints self then
    let* _ := deque_getattr "get" in
    let* e := deque_getitem (checkpoints self) checkpoint_id in
    let* agent := torch_load fs e in
    Ok (Instance agent, self', (checkpoint_id, timestep))
  else
    let* agent := deque_getitem (checkpoints self) checkpoint_id in
    Ok (agent, self', (checkpoint_id, timestep)).

(** [add_checkpoint(self, args, agent, step)]; the copy made in memory
    mode is a network with the parameters of [agent]. *)
Definition add_checkpoint (self : SelfPlayAssistant) (fs : gmap string Agent)
    (agent : Agent) (step : step_arg) : SelfPlayAssistant * gmap string Agent :=
  let step' := match step with PyInt z => z | TensorScalar z => z end in
  if save_checkpoints self then update_pool self fs agent step'
  else
    let agent_copy := agent in
    update_pool self fs agent_copy step'.
End SelfPlay.
Arguments entry Agent : clear implicits.
Arguments SelfPlayAssistant Agent G : clear implicits.

(** ** The rollout loop *)

(** Floating-point tensors: the operations on their elements are kept
    abstract. *)
Class Arith (F : Type) : Type := {
  f0 : F;
  f1 : F;
  fadd : F -> F -> F;
  fsub : F -> F -> F;
  fmul : F -> F -> F
}.

(** [sum(t)] / [torch.sum(t)] of an integer tensor. *)
Definition tensor_sum (t : list Z) : Z := foldr Z.add 0%Z t.

(** [a % b] on Python integers. *)
Definition py_mod (a b : Z) : result Z :=
  if (b =? 0)%Z then Raise ZeroDivisionError else Ok (a `mod` b)%Z.

(** What the script reads from the [info] of [reset] and [step]
    ([learning_id], [player_id], [train_ids], lines 349-351 and 428-430). *)
Record turn : Type := Turn {
  learning_id : list Z;
  player_id : list Z;
  train_ids : list Z
}.

(** [learning_id == player_id] *)
Definition tensor_eq (x y : list Z) : list bool := zip_with Z.eqb x y.

Definition read_turn (learning_player player_id_ : list Z) : turn :=
  Turn learning_player player_id_ (to_int <$> tensor_eq learning_player player_id_).

(** Lines 374-377: the split of the observations and the advance of
    [global_step]; [len(next_obs > 0)] is the number of rows of
    [next_obs]. *)
Definition advance_global_step {O M : Type} (global_step : Z) (tn : turn)
    (next_obs : tensor2 O) (next_masks : tensor2 M) : result Z :=
  let* ((next_obs', opp_obs), (next_mask, opp_mask)) :=
    split_obs next_obs next_masks (tensor_eq (learning_id tn) (player_id tn)) in
  if decide (0 < length (rows next_obs')) then Ok (global_step + tensor_sum (train_ids tn))%Z
  else Ok global_step.

(** Lines 387 and 389: the test of the checkpoint and of the replace
    cadence. *)
Definition cadence_due (global_step period : Z) (train_ids_ : list Z) : result bool :=
  let* m := py_mod global_step period in Ok (m <? tensor_sum train_ids_)%Z.

(** Line 446: the test of the evaluation cadence. *)
Definition eval_due (global_step eval_freq : Z) (train_ids_ : list Z) : result bool :=
  let* m := py_mod global_step eval_freq in Ok (m <=? tensor_sum train_ids_)%Z.

(** [torch.logical_and(done, ~train_ids.bool()).int()], on the flags that
    the tensor [done] was made from. *)
Definition lost_on_opponent_turn (done : list bool) (train_ids_ : list Z) : list Z :=
  to_int <$> zip_with andb done (negb <$> (truthy <$> train_ids_)).

Section Rollout.
Context {F O : Type} `{Arith F}.

(** [torch.Tensor(done)] *)
Definition float_of_bool (b : bool) : F := if b then f1 else f0.

(** Lines 411-417: the writes of [reward] and [done]. *)
Definition write_reward_done (rewards dones : buffer F) (steps train_ids_ : list Z)
    (reward : list F) (done_flags : list bool) : result (buffer F * buffer F) :=
  let done := float_of_bool <$> done_flags in
  let* rewards1 := insert_at_indices rewards steps train_ids_ reward in
  let* dones1 := insert_at_indices dones steps train_ids_ done in
  let steps_1 := (fun s => s - 1)%Z <$> steps in
  let lost := lost_on_opponent_turn done_flags train_ids_ in
  let* rewards2 := insert_at_indices rewards1 steps_1 lost reward in
  let* dones2 := insert_at_indices dones1 steps_1 lost done in
  Ok (rewards2, dones2).

(** The state of the rollout loop that the cadence tests and the reward
    writes read and change. *)
Record rollout : Type := Rollout {
  global_step : Z;
  next_obs : tensor2 O;
  next_masks : tensor2 bool;
  tn : turn;
  steps : list Z;
  rewards : buffer F;
  dones : buffer F
}.

(** What the environment returns from [envs.step]. *)
Record step_result : Type := StepResult {
  step_obs : tensor2 O;
  reward : list F;
  done : list bool;
  info_action_mask : tensor2 bool;
  info_learning_player : list Z;
  info_player_id : list Z
}.

(** What one pass of the loop body triggers. *)
Record triggers : Type := Triggers {
  checkpoint_added : bool;
  opponent_replaced : bool;
  evaluated : bool
}.

(** One pass of the body of [while step < args.num_steps] (lines 371-447)
    as far as [global_step], the cadence tests, the reward and done
    buffers and the cursors go.  The queries of the two networks, the
    writes to the other buffers and the logging are left out. *)
Definition substep (checkpoint_freq_ replace_freq_ eval_freq : Z)
    (st : rollout) (r : step_result) : result (rollout * triggers) :=
  let ids := train_ids (tn st) in
  let* gs := advance_global_step (global_step st) (tn st) (next_obs st) (next_masks st) in
  let* cp := cadence_due gs checkpoint_freq_ ids in
  let* rp := cadence_due gs replace_freq_ ids in
  let* (rewards', dones') :=
    write_reward_done (rewards st) (dones st) (steps st) ids (reward r) (done r) in
  let steps' := zip_with Z.add (steps st) ids in
  let tn' := read_turn (info_learning_player r) (info_player_id r) in
  let* ev := eval_due gs eval_freq (train_ids tn') in
  Ok (Rollout gs (step_obs r) (info_action_mask r) tn' steps' rewards' dones',
      Triggers cp rp ev).
End Rollout.
Arguments rollout F O : clear implicits.
Arguments step_result F O : clear implicits.

(** ** Generalized advantage estimation *)

Section GAE.
Context {F : Type} `{Arith F}.

Definition vadd (x y : list F) : list F := zip_with fadd x y.
Definition vsub (x y : list F) : list F := zip_with fsub x y.
Definition vmul (x y : list F) : list F := zip_with fmul x y.
(** A scalar times a tensor. *)
Definition smul (c : F) (x : list F) : list F := fmul c <$> x.

(** [(steps > t).int()] as a factor of a float tensor. *)
Definition gt_mask (steps_ : list Z) (t : nat) : list F :=
  (fun s => float_of_bool (Z.of_nat t <? s)%Z) <$> steps_.

(** [buf[t] = row] *)
Definition setrow (buf : buffer F) (t : nat) (row : list F) : result (buffer F) :=
  if decide (t < length buf) then Ok (<[t := row]> buf) else Raise IndexError.

(** [range(args.num_steps - 2)] reversed. *)
Definition gae_range (num_steps : Z) : list nat :=
  reverse (seq 0 (Z.to_nat (num_steps - 2))).

(** The body of the loop at [t] (lines 458-461). *)
Definition gae_body (gamma gae_lambda : F) (rewards_ dones_ values : buffer F)
    (steps_ : list Z) (t : nat) (advantages : buffer F) (lastgaelam : list F)
    : result (buffer F * list F) :=
  let* d := getitem dones_ (t + 1) in
  let nextnonterminal := fsub f1 <$> d in
  let* v1 := getitem values (t + 1) in
  let nextvalues := vmul v1 (gt_mask steps_ t) in
  let* r := getitem rewards_ t in
  let* v := getitem values t in
  let delta := vsub (vadd r (vmul (smul gamma nextvalues) nextnonterminal)) v in
  let adv := vadd delta (vmul (smul (fmul gamma gae_lambda) nextnonterminal) lastgaelam) in
  let* advantages' := setrow advantages t adv in
  Ok (advantages', adv).

Fixpoint gae_loop (gamma gae_lambda : F) (rewards_ dones_ values : buffer F)
    (steps_ : list Z) (ts : list nat) (advantages : buffer F) (lastgaelam : list F)
    : result (buffer F * list F) :=
  match ts with
  | [] => Ok (advantages, lastgaelam)
  | t :: ts' =>
      let* (advantages', lastgaelam') :=
        gae_body gamma gae_lambda rewards_ dones_ values steps_ t advantages lastgaelam in
      gae_loop gamma gae_lambda rewards_ dones_ values steps_ ts' advantages' lastgaelam'
  end.

(** Lines 451-462: [advantages] and [returns].  The scalar [0] that
    [lastgaelam] starts from is the row of zeros it is broadcast to. *)
Definition gae (num_steps : Z) (gamma gae_lambda : F) (rewards_ dones_ values : buffer F)
    (steps_ : list Z) : result (buffer F * buffer F) :=
  let advantages : buffer F := map (map (fun _ => f0)) rewards_ in
  let lastgaelam := replicate (length steps_) f0 in
  let* (advantages', _) :=
    gae_loop gamma gae_lambda rewards_ dones_ values steps_ (gae_range num_steps)
             advantages lastgaelam in
  let returns : buffer F := zip_with vadd advantages' values in
  Ok (advantages', returns).
End GAE.

(** ** Importing modules *)

(** The top-level statements that matter when a module is executed. *)
Inductive stmt : Type :=
  | Import (module : string) (bound : string)            (* import m [as x] *)
  | FromImport (module : string) (names : list string)   (* from m import a, b *)
  | Def (name : string)                                  (* def / class *)
  | Main.                                                (* if __name__ == "__main__": *)

(** [pytag/utils/common.py] *)
Definition common_py : list stmt :=
  [ Import "gymnasium" "gym";
    FromImport "gymnasium.wrappers.frame_stack" ["FrameStack"];
    Import "numpy" "np";
    Import "torch" "torch";
    Import "jpype" "jpype";
    Import "jpype.imports" "jpype";
    FromImport "pytag" ["PyTAG"; "MultiAgentPyTAG"];
    FromImport "pytag.utils.wrappers" ["StrategoWrapper"; "SushiGoWrapper"; "MASushiGoWrapper"];
    Def "make_ma_env";
    Def "make_env";
    Def "get_agent_list";
    Def "get_agent_class";
    Def "layer_init" ]%string.

(** [examples/ppo-selfplay.py], each statement with its line. *)
Definition ppo_selfplay_py : list (nat * stmt) :=
  [ (2, Import "argparse" "argparse");
    (3, Import "os" "os");
    (4, Import "random" "random");
    (5, Import "time" "time");
    (6, FromImport "collections" ["deque"]);
    (7, FromImport "distutils.util" ["strtobool"]);
    (9, Import "gymnasium" "gym");
    (10, Import "numpy" "np");
    (11, Import "torch" "torch");
    (12, Import "torch.nn" "nn");
    (13, Import "torch.optim" "optim");
    (15, FromImport "torch.utils.tensorboard" ["SummaryWriter"]);
    (17, FromImport "pytag.utils.wrappers"
           ["MergeActionMaskWrapper"; "RecordEpisodeStatistics"; "RecordSelfPlayEpStats"]);
    (18, FromImport "pytag.utils.common" ["make_env"; "make_sp_env"]);
    (19, FromImport "examples.utils.networks" ["PPONet"]);
    (21, Def "SelfPlayAssistant");
    (83, Def "split_obs");
    (93, Def "merge_actions");
    (107, Def "insert_at_indices");
    (119, Def "evaluate");
    (186, Def "parse_args");
    (270, Main) ]%string.

(** The modules outside the supplied source: whether a module can be
    imported, and then which names it has. *)
Definition externals : Type := string -> option (string -> bool).

(** The first of [names] that the namespace [has] not. *)
Definition first_missing (has : string -> bool) (names : list string) : option string :=
  list_find (fun n => has n = false) names ≫= (fun p => Some p.2).

(** A statement of a module whose imports are all of outside modules:
    the namespace [ns] after it. *)
Definition exec_stmt (ext : externals) (ns : list string) (s : stmt) : result (list string) :=
  match s with
  | Import m bound =>
      match ext m with
      | Some _ => Ok (bound :: ns)
      | None => Raise (ModuleNotFoundError m)
      end
  | FromImport m names =>
      match ext m with
      | Some has =>
          match first_missing has names with
          | Some n => Raise (ImportError m n)
          | None => Ok (names ++ ns)
          end
      | None => Raise (ModuleNotFoundError m)
      end
  | Def name => Ok (name :: ns)
  | Main => Ok ns
  end.

Fixpoint exec_module (ext : externals) (ns : list string) (body : list stmt)
    : result (list string) :=
  match body with
  | [] => Ok ns
  | s :: body' => let* ns' := exec_stmt ext ns s in exec_module ext ns' body'
  end.

(** What running the script comes to. *)
Inductive outcome : Type :=
  | Failed (line : nat) (e : exn)     (* an exception at a top-level statement *)
  | MainEntered (line : nat).         (* the main block starts: [parse_args()] *)

(** A statement of the script: [pytag.utils.common] is the supplied module,
    executed when it is imported. *)
Definition exec_script_stmt (ext : externals) (ns : list string) (s : stmt)
    : result (list string) :=
  match s with
  | FromImport m names =>
      if decide (m = "pytag.utils.common") then
        let* common_ns := exec_module ext [] common_py in
        match first_missing (fun n => bool_decide (n ∈ common_ns)) names with
        | Some n => Raise (ImportError "pytag.utils.common" n)
        | None => Ok (names ++ ns)
        end
      else exec_stmt ext ns s
  | _ => exec_stmt ext ns s
  end.

Fixpoint exec_script (ext : externals) (ns : list string) (body : list (nat * stmt))
    : outcome :=
  match body with
  | [] => MainEntered 0
  | (line, Main) :: _ => MainEntered line
  | (line, s) :: body' =>
      match exec_script_stmt ext ns s with
      | Ok ns' => exec_script ext ns' body'
      | Raise e => Failed line e
      end
  end.

(** [python examples/ppo-selfplay.py ...] *)
Definition run_script (ext : externals) : outcome := exec_script ext [] ppo_selfplay_py.

(** The names that the [def] statements of a module define. *)
Definition defined_names (body : list stmt) : list string :=
  omap (fun s => match s with Def n => Some n | _ => None end) body.

(** [e] is one of the exceptions of the import system. *)
Definition import_error (e : exn) : bool :=
  match e with
  | ImportError _ _ | ModuleNotFoundError _ => true
  | _ => false
  end.

(** Every outside module can be imported and has every name asked for. *)
Definition all_installed : externals := fun _ => Some (fun _ => true).

(** ** Instances for the examples *)

#[export] Instance Z_arith : Arith Z :=
  {| f0 := 0%Z; f1 := 1%Z; fadd := Z.add; fsub := Z.sub; fmul := Z.mul |}.

(** A linear congruential generator. *)
Definition lcg_next (g : Z) : Z := ((g * 1103515245 + 12345) `mod` 2147483648)%Z.

#[export] Instance lcg : RandomGen Z :=
  {| Random := fun s => s;
     random := fun g => (Qmake (lcg_next g `mod` 1000) 1000, lcg_next g);
     randbelow := fun g n => ((lcg_next g `mod` n)%Z, lcg_next g) |}.

(** ** The agent registry and the environment factories *)

(** [get_agent_list()] *)
Definition get_agent_list : list string := ["random"; "mcts"; "osla"; "python"].

(** [get_agent_class(agent_name)]: the name of the Java class that
    [jpype.JClass] is asked for, or [None]. *)
Definition get_agent_class (agent_name : string) : option string :=
  if decide (agent_name = "random") then Some "players.simple.RandomPlayer"
  else if decide (agent_name = "mcts") then Some "players.mcts.MCTSPlayer"
  else if decide (agent_name = "osla") then Some "players.simple.OSLAPlayer"
  else if decide (agent_name = "python") then Some "players.python.PythonAgent"
  else None.

(** [needle in hay] on strings. *)
Fixpoint contains (needle hay : string) : bool :=
  String.prefix needle hay ||
  match hay with
  | EmptyString => false
  | String _ hay' => contains needle hay'
  end.

(** The wrappers that the factories put around an environment. *)
Inductive wrapper : Type :=
  | StrategoWrapper
  | SushiGoWrapper
  | MASushiGoWrapper
  | FrameStack (n : Z).

(** What a thunk asks [gym.make] for, and the wrappers around the result,
    innermost first. *)
Record env_request : Type := EnvRequest {
  req_env_id : string;
  req_seed : Z;
  req_agent_ids : list string;
  req_obs_type : string;
  req_wrappers : list wrapper
}.

(** [for i in range(n): agent_ids.append(opponent)] *)
Fixpoint append_opponents (agent_ids : list string) (opponent : string) (n : nat)
    : list string :=
  match n with
  | O => agent_ids
  | S n' => append_opponents (agent_ids ++ [opponent]) opponent n'
  end.

(** The wrappers of a thunk: [sushi] is the wrapper for the Sushi Go
    games. *)
Definition wrap (env_id : string) (sushi : wrapper) (framestack : Z) : list wrapper :=
  (if contains "Stratego" env_id then [StrategoWrapper] else []) ++
  (if contains "Sushi" env_id then [sushi] else []) ++
  (if (1 <? framestack)%Z then [FrameStack framestack] else []).

(** The thunk of [make_env(env_id, seed, opponent, n_players, framestack,
    obs_type, randomise_order)]; [shuffle] is what [np.random.shuffle] does
    to a list at the time of the call. *)
Definition make_env (shuffle : list string -> list string) (env_id : string) (seed_ : Z)
    (opponent : string) (n_players : Z) (framestack : Z) (obs_type : string)
    (randomise_order : bool) : env_request :=
  let agent_ids := ["python"] in
  let agent_ids := append_opponents agent_ids opponent (Z.to_nat (n_players - 1)) in
  let agent_ids := if randomise_order then shuffle agent_ids else agent_ids in
  EnvRequest env_id seed_ agent_ids obs_type (wrap env_id SushiGoWrapper framestack).

(** The thunk of [make_ma_env(...)]: [["python"] * n_players], and no
    shuffle. *)
Definition make_ma_env (env_id : string) (seed_ : Z) (opponent : string) (n_players : Z)
    (framestack : Z) (obs_type : string) (randomise_order : bool) : env_request :=
  let agent_ids := replicate (Z.to_nat n_players) "python" in
  let agent_ids := append_opponents agent_ids opponent (Z.to_nat (n_players - 1)) in
  EnvRequest env_id seed_ agent_ids obs_type (wrap env_id MASushiGoWrapper framestack).

(** ** The batch of an update *)

(** [a // b] on Python integers. *)
Definition py_floordiv (a b : Z) : result Z :=
  if (b =? 0)%Z then Raise ZeroDivisionError else Ok (a `div` b)%Z.

(** Lines 264-265 of [parse_args]: [batch_size] and [minibatch_size]. *)
Definition derived_sizes (num_envs num_steps num_minibatches : Z) : result (Z * Z) :=
  let batch_size := (num_envs * num_steps)%Z in
  let* minibatch_size := py_floordiv batch_size num_minibatches in
  Ok (batch_size, minibatch_size).

(** [range(start, stop, step)] *)
Definition py_range (start stop step : Z) : result (list Z) :=
  if (step =? 0)%Z then Raise ValueError
  else if (0 <? step)%Z then
    Ok ((fun k => (start + Z.of_nat k * step)%Z)
          <$> seq 0 (Z.to_nat ((stop - start + step - 1) `div` step)))
  else
    Ok ((fun k => (start + Z.of_nat k * step)%Z)
          <$> seq 0 (Z.to_nat ((start - stop - step - 1) `div` (- step)))).

(** The position that a slice bound [k] stands for in a sequence of
    length [n]. *)
Definition slice_bound (n : nat) (k : Z) : nat :=
  if (k <? 0)%Z then Z.to_nat (Z.max 0 (k + Z.of_nat n))
  else Nat.min (Z.to_nat k) n.

(** [l[lo:hi]] *)
Definition py_slice {A : Type} (l : list A) (lo hi : Z) : list A :=
  let lo' := slice_bound (length l) lo in
  let hi' := slice_bound (length l) hi in
  take (hi' - lo') (drop lo' l).

(** Lines 495-497: the index sets of the minibatches of one epoch,
    [b_inds[start:end]] for [start in range(0, n_transitions,
    minibatch_size)]. *)
Definition minibatches {A : Type} (b_inds : list A) (n_transitions minibatch_size : Z)
    : result (list (list A)) :=
  let* starts := py_range 0 n_transitions minibatch_size in
  Ok ((fun start => py_slice b_inds start (start + minibatch_size)) <$> starts).

Section Flatten.
Context {V : Type}.

Fixpoint collect (rs : list (result V)) : result (list V) :=
  match rs with
  | [] => Ok []
  | r :: rs' => let* x := r in let* xs := collect rs' in Ok (x :: xs)
  end.

(** [buf[:s, i]] *)
Definition column_prefix (buf : buffer V) (s : Z) (i : nat) : result (list V) :=
  collect ((fun row => getitem row i) <$> py_slice buf 0 s).

(** [b[lo:hi] = src], with a source of one row broadcast. *)
Definition slice_assign (b : list V) (lo hi : Z) (src : list V) : result (list V) :=
  let lo' := slice_bound (length b) lo in
  let hi' := slice_bound (length b) hi in
  let len := hi' - lo' in
  if decide (length src = len) then Ok (take lo' b ++ src ++ drop (lo' + len) b)
  else
    match src with
    | [x] => Ok (take lo' b ++ replicate len x ++ drop (lo' + len) b)
    | _ => Raise RuntimeError
    end.

(** The loop of lines 480-488 for one of the buffers; [j] is the offset
    left by the pass before. *)
Fixpoint flatten_loop (b : list V) (buf : buffer V) (steps_ : list Z) (envs : list nat)
    (j : Z) : result (list V) :=
  match envs with
  | [] => Ok b
  | i :: envs' =>
      let* j' := if decide (i = 0) then Ok j
                 else let* p := getitem steps_ (i - 1) in Ok (j + p)%Z in
      let* s := getitem steps_ i in
      let* src := column_prefix buf s i in
      let* b' := slice_assign b j' (j' + s) src in
      flatten_loop b' buf steps_ envs' j'
  end.

(** Lines 469-488 for one of the buffers: [torch.zeros((n_transitions,))]
    filled with the valid rows of each environment. *)
Definition flatten (zero : V) (buf : buffer V) (steps_ : list Z) : result (list V) :=
  let n_transitions := tensor_sum steps_ in
  if (n_transitions <? 0)%Z then Raise RuntimeError
  else flatten_loop (replicate (Z.to_nat n_transitions) zero) buf steps_
                    (seq 0 (length steps_)) 0.

(** What is stored of environment [i]: its first [s] rows. *)
Definition env_prefix (buf : buffer V) (i : nat) (s : Z) : list V :=
  take (Z.to_nat s) (omap (fun row => row !! i) buf).
End Flatten.

(** ** A segment of the rollout *)

(** [t.max()] of a one-dimensional tensor; an empty tensor has none. *)
Definition tensor_max (t : list Z) : result Z :=
  match t with
  | [] => Raise RuntimeError
  | x :: t' => Ok (foldr Z.max x t')
  end.

Section Segment.
Context {F O : Type} `{Arith F}.

(** The loop [while step < args.num_steps] (lines 364-447) along the
    answers of the environment in [responses]; when they are used up
    before the loop ends, the state reached so far is returned. *)
Fixpoint rollout_segment (num_steps checkpoint_freq_ replace_freq_ eval_freq : Z)
    (st : rollout F O) (step : Z) (responses : list (step_result F O))
    : result (rollout F O * Z) :=
  match responses with
  | [] => Ok (st, step)
  | r :: responses' =>
      if (step <? num_steps)%Z then
        let* (st', _) := substep checkpoint_freq_ replace_freq_ eval_freq st r in
        let* step' := tensor_max (steps st') in
        rollout_segment num_steps checkpoint_freq_ replace_freq_ eval_freq
                        st' step' responses'
      else Ok (st, step)
  end.

(** Observations, masks and turn data for [N] environments. *)
Definition turn_shaped (N : nat) (obs : tensor2 O) (masks : tensor2 bool)
    (learning_player player : list Z) : Prop :=
  wf_tensor2 obs /\ wf_tensor2 masks /\ 0 < ncols obs /\ 0 < ncols masks /\
  length (rows obs) = N /\ length (rows masks) = N /\
  length learning_player = N /\ length player = N.

Definition response_shaped (N : nat) (r : step_result F O) : Prop :=
  turn_shaped N (step_obs r) (info_action_mask r)
              (info_learning_player r) (info_player_id r).
End Segment.

(** ** Predicates of the statements *)

(** [(r, c)] is a cell that [insert_at_indices] writes: the filter is set
    at column [c] and the cursor of [c] addresses row [r] of [B] rows. *)
Definition targeted (B : nat) (cursors indices : list Z) (r c : nat) : Prop :=
  exists b k, indices !! c = Some b /\ truthy b = true /\
              cursors !! c = Some k /\ norm_index B k = Ok r.

(** [(r, i)] is a cell that the reward and done writes of a sub-step
    address: row [steps[i]] where the learning agent acted in environment
    [i], row [steps[i] - 1] where the episode of [i] ended on an opponent's
    turn. *)
Definition written_cell (B : nat) (steps_ train_ids_ : list Z) (done_flags : list bool)
    (r i : nat) : Prop :=
  exists s t d, steps_ !! i = Some s /\ train_ids_ !! i = Some t /\ done_flags !! i = Some d /\
    ((truthy t = true /\ norm_index B s = Ok r) \/
     (truthy t = false /\ d = true /\ norm_index B (s - 1) = Ok r)).

(** The reading of the reward writes under test: every environment has
    its own entry of [vals] at its current cursor. *)
Definition own_value_at_cursor {V : Type} (buf : buffer V) (steps_ : list Z) (vals : list V)
    : Prop :=
  forall i s v, steps_ !! i = Some s -> vals !! i = Some v ->
    cell buf (Z.to_nat s) i = Some v.

(** The [w] most recently added entries of [l], in insertion order. *)
Definition last_entries {A : Type} (w : nat) (l : list A) : list A :=
  drop (length l - w) l.

Definition step_value (step : step_arg) : Z :=
  match step with PyInt z => z | TensorScalar z => z end.

Section Calls.
Context {Agent G : Type} `{RandomGen G}.

(** The step of a call [add_checkpoint(args, agent, step)]. *)
Definition call_step (call : Agent * step_arg) : Z := step_value call.2.

(** What a call [add_checkpoint(args, agent, step)] adds to
    [checkpoints]. *)
Definition pool_entry (self : SelfPlayAssistant Agent G) (call : Agent * step_arg)
    : entry Agent :=
  if save_checkpoints self then
    Path (path_join (checkpoint_dir self)
            ("checkpoint_" +:+ pretty (step_value call.2) +:+ ".pt"))
  else Instance call.1.

(** A sequence of calls of [add_checkpoint]. *)
Fixpoint add_checkpoints (self : SelfPlayAssistant Agent G) (fs : gmap string Agent)
    (calls : list (Agent * step_arg)) : SelfPlayAssistant Agent G * gmap string Agent :=
  match calls with
  | [] => (self, fs)
  | (agent, step) :: calls' =>
      let '(self', fs') := add_checkpoint self fs agent step in
      add_checkpoints self' fs' calls'
  end.

(** [n] calls of [sample_opponent] on a pool that does not change: the
    indices drawn. *)
Fixpoint sample_ids (self : SelfPlayAssistant Agent G) (n : nat) : list (result Z) :=
  match n with
  | O => []
  | S n' =>
      match sample_id self with
      | Ok (k, g) => Ok k :: sample_ids (with_rnd self g) n'
      | Raise e => [Raise e]
      end
  end.
End Calls.

(** The assistant of a run with [--sp-save-checkpoints True] after the
    first checkpoint (line 326), with [lcg] for the generators. *)
Definition disk_manager : SelfPlayAssistant nat Z :=
  {| checkpoint_freq := 5000; window := 10; replace_freq := 1000;
     self_play_prob := 7 # 10;
     checkpoints := Deque [Path "ckpt/checkpoint_0.pt"] 10;
     save_steps := Deque [0%Z] 10;
     save_checkpoints := true; checkpoint_dir := "ckpt/";
     seed := 1; rnd := 1%Z |}.

(** Three checkpoints added to a pool. *)
Definition three_calls : list (nat * step_arg) :=
  [(1, PyInt 0); (2, PyInt 10); (3, TensorScalar 20)].

(** The recurrence of the advantage estimate for one environment at step
    [t], as the specification states it: [r], [v0] are the reward and value
    at [t], [d1], [v1] the done flag and value at [t + 1], [s] the filled
    length of the environment and [last] the advantage computed before. *)
Definition gae_cell {F : Type} `{Arith F} (gamma gae_lambda r d1 v1 v0 : F) (s : Z)
    (t : nat) (last : F) : F :=
  let nextnonterminal := fsub f1 d1 in
  let nextvalues := fmul v1 (float_of_bool (Z.of_nat t <? s)%Z) in
  let delta := fsub (fadd r (fmul (fmul gamma nextvalues) nextnonterminal)) v0 in
  fadd delta (fmul (fmul (fmul gamma gae_lambda) nextnonterminal) last).

(** The namespace after the statements of [body], when none of them
    fails. *)
Definition namespace_after (ns : list string) (body : list stmt) : list string :=
  foldl (fun ns s =>
           match s with
           | Import _ bound => bound :: ns
           | FromImport _ names => names ++ ns
           | Def name => name :: ns
           | Main => ns
           end) ns body.

(** Two sub-steps of a run with two environments, cadences of 10000 for
    the opponent replacement and the evaluation and 50000 for the
    checkpoints.  At the start of the run the opponent is to act in both
    environments; at [global_step = 9999] the learning agent acts in both
    and the opponent is to act next. *)
Definition zeros32 : buffer Z := [[0; 0]; [0; 0]; [0; 0]]%Z.

Definition start_state : rollout Z Z :=
  Rollout 0 (Tensor2 [[1]; [2]]%Z 1) (Tensor2 [[true]; [true]] 1)
          (read_turn [0; 0]%Z [1; 1]%Z) [0; 0]%Z zeros32 zeros32.

Definition start_step : step_result Z Z :=
  StepResult (Tensor2 [[3]; [4]]%Z 1) [0; 0]%Z [false; false]
             (Tensor2 [[true]; [true]] 1) [0; 0]%Z [0; 0]%Z.

Definition crossing_state : rollout Z Z :=
  Rollout 9999 (Tensor2 [[1]; [2]]%Z 1) (Tensor2 [[true]; [true]] 1)
          (read_turn [0; 0]%Z [0; 0]%Z) [0; 0]%Z zeros32 zeros32.

Definition crossing_step : step_result Z Z :=
  StepResult (Tensor2 [[3]; [4]]%Z 1) [0; 0]%Z [false; false]
             (Tensor2 [[true]; [true]] 1) [0; 0]%Z [1; 1]%Z.

(** * Properties *)

(** ** Indexing *)

Lemma norm_index_lt (n : nat) (k : Z) (r : nat) :
  norm_index n k = Ok r -> r < n.
Proof.
  unfold norm_index.
  destruct ((0 <=? k) && (k <? Z.of_nat n))%Z eqn:E1.
  - intros [= <-]. apply andb_true_iff in E1 as [? ?%Z.ltb_lt]. lia.
  - destruct ((- Z.of_nat n <=? k) && (k <? 0))%Z eqn:E2; [|discriminate].
    intros [= <-]. apply andb_true_iff in E2 as [?%Z.leb_le ?%Z.ltb_lt]. lia.
Qed.

Lemma norm_index_nonneg (n : nat) (k : Z) :
  (0 <= k < Z.of_nat n)%Z -> norm_index n k = Ok (Z.to_nat k).
Proof.
  intros Hk. unfold norm_index.
  replace ((0 <=? k) && (k <? Z.of_nat n))%Z with true; [done|].
  symmetry. apply andb_true_iff. split; [apply Z.leb_le | apply Z.ltb_lt]; lia.
Qed.

Lemma norm_index_valid (n : nat) (k : Z) :
  (- Z.of_nat n <= k < Z.of_nat n)%Z -> exists r, norm_index n k = Ok r.
Proof.
  intros Hk. unfold norm_index.
  destruct ((0 <=? k) && (k <? Z.of_nat n))%Z eqn:E1; [eauto|].
  replace ((- Z.of_nat n <=? k) && (k <? 0))%Z with true; [eauto|].
  symmetry. apply andb_true_iff. split; [apply Z.leb_le; lia|].
  apply Z.ltb_lt. apply andb_false_iff in E1 as [?%Z.leb_gt | ?%Z.ltb_ge]; lia.
Qed.

Lemma getitem_Ok {A : Type} (l : list A) (j : nat) (a : A) :
  getitem l j = Ok a <-> l !! j = Some a.
Proof. unfold getitem. destruct (l !! j); split; congruence. Qed.

Lemma getitem_lt {A : Type} (l : list A) (j : nat) :
  j < length l -> exists a, getitem l j = Ok a /\ l !! j = Some a.
Proof.
  intros Hj. destruct (lookup_lt_is_Some_2 l j Hj) as [a Ha].
  exists a. split; [by apply getitem_Ok | done].
Qed.

Lemma count_true_cons (b : Z) (l : list Z) :
  count_true (b :: l) = (if truthy b then 1 else 0) + count_true l.
Proof.
  unfold count_true. rewrite filter_cons.
  destruct (decide (truthy b = true)) as [->|Hb]; [done|].
  by destruct (truthy b).
Qed.

Section BufferFacts.
Context {V : Type}.
Implicit Types (buf : buffer V) (v : V).

Lemma cell_Some_shape buf B N r i :
  shape buf B N -> r < B -> i < N -> is_Some (cell buf r i).
Proof.
  intros [HB HN] Hr Hi. unfold cell.
  destruct (lookup_lt_is_Some_2 buf r) as [row Hrow]; [lia|].
  rewrite Hrow. simpl. apply lookup_lt_is_Some_2.
  rewrite Forall_forall in HN. rewrite (HN row); [done|].
  by eapply list_elem_of_lookup_2.
Qed.

Lemma set_cell_spec buf B N k r i v :
  shape buf B N -> norm_index B k = Ok r -> i < N ->
  exists buf1, set_cell buf k i v = Ok buf1 /\ shape buf1 B N /\
    cell buf1 r i = Some v /\
    forall r' i', (r', i') <> (r, i) -> cell buf1 r' i' = cell buf r' i'.
Proof.
  intros [HB HN] Hk Hi. pose proof (norm_index_lt _ _ _ Hk) as Hr.
  unfold set_cell. rewrite HB, Hk. simpl.
  destruct (lookup_lt_is_Some_2 buf r) as [row Hrow]; [lia|].
  rewrite Hrow.
  assert (length row = N) as Hlen.
  { rewrite Forall_forall in HN. apply HN. by eapply list_elem_of_lookup_2. }
  destruct (decide (i < length row)) as [_|]; [|lia].
  eexists. split; [done|]. split; [|split].
  - split; [by rewrite length_insert|].
    apply Forall_insert; [done|]. by rewrite length_insert.
  - unfold cell. rewrite list_lookup_insert_eq by lia. simpl.
    apply list_lookup_insert_eq. lia.
  - intros r' i' Hne. unfold cell.
    destruct (decide (r' = r)) as [->|Hr'].
    + rewrite list_lookup_insert_eq by lia. rewrite Hrow. simpl.
      apply list_lookup_insert_ne. congruence.
    + by rewrite list_lookup_insert_ne.
Qed.
End BufferFacts.

Lemma count_true_nil : count_true [] = 0.
Proof. done. Qed.

Lemma count_true_take_lt (indices : list Z) (c : nat) (b : Z) :
  indices !! c = Some b -> truthy b = true ->
  count_true (take c indices) < count_true indices.
Proof.
  revert c. induction indices as [|x l IH]; intros [|c] Hc Hb; simpl in *; try done.
  - injection Hc as ->. rewrite count_true_cons, Hb, count_true_nil. lia.
  - rewrite !count_true_cons. specialize (IH c Hc Hb). lia.
Qed.

(** ** [insert_at_indices] *)

Section InsertFacts.
Context {V : Type}.
Implicit Types (buf : buffer V) (values : list V).

(** The loop from column [i] on, with [j] rows of [values] consumed:
    it ends without error, each set column gets the next row of [values]
    at its cursor, and all other cells stay. *)
Lemma insert_loop_spec values cursors B N : forall rest buf i j,
  shape buf B N -> i + length rest <= N ->
  (forall p b, rest !! p = Some b -> truthy b = true ->
     exists k r, cursors !! (i + p) = Some k /\ norm_index B k = Ok r) ->
  j + count_true rest <= length values ->
  exists buf', insert_loop buf cursors values rest i j = Ok buf' /\ shape buf' B N /\
    (forall p b k r, rest !! p = Some b -> truthy b = true ->
       cursors !! (i + p) = Some k -> norm_index B k = Ok r ->
       cell buf' r (i + p) = values !! (j + count_true (take p rest))) /\
    (forall r c,
       (forall p b k, c = i + p -> rest !! p = Some b -> truthy b = true ->
          cursors !! c = Some k -> norm_index B k = Ok r -> False) ->
       cell buf' r c = cell buf r c).
Proof.
  induction rest as [|b rest IH]; intros buf i j Hsh Hlen Hcur Hj.
  - exists buf. simpl. split; [done|]. split; [done|]. split; [|done].
    intros p b k r Hp. by rewrite lookup_nil in Hp.
  - simpl in Hlen. rewrite count_true_cons in Hj. simpl.
    destruct (truthy b) eqn:Hb.
    + destruct (getitem_lt values j) as (v & Hv & Hv'); [lia|].
      rewrite Hv. simpl.
      destruct (Hcur 0 b) as (k & r & Hk & Hr); [done..|].
      rewrite Nat.add_0_r in Hk.
      rewrite (proj2 (getitem_Ok _ _ _) Hk). simpl.
      destruct (set_cell_spec buf B N k r i v) as (buf1 & Hset & Hsh1 & Hc1 & Hfr1);
        [done | done | lia |].
      rewrite Hset. simpl.
      destruct (IH buf1 (S i) (S j)) as (buf' & Hloop & Hsh' & HW & HF);
        [done | lia | | lia |].
      { intros p b' Hp Hb'. replace (S i + p) with (i + S p) by lia.
        by apply (Hcur (S p) b'). }
      exists buf'. split; [done|]. split; [done|]. split.
      * intros [|p] b' k' r' Hp Hb' Hk' Hr'.
        -- rewrite Nat.add_0_r in *. assert (k' = k) as -> by congruence.
           assert (r' = r) as -> by congruence.
           rewrite HF; [|intros; lia].
           by rewrite Hc1, take_0, count_true_nil, Nat.add_0_r.
        -- replace (i + S p) with (S i + p) in * by lia.
           rewrite (HW p b' k' r') by done. simpl take.
           rewrite count_true_cons, Hb. f_equal. lia.
      * intros r' c Hno. rewrite HF.
        -- apply Hfr1. intros [= -> ->]. apply (Hno 0 b k); first [done | lia].
        -- intros p b' k' -> Hp Hb' Hk' Hr'.
           apply (Hno (S p) b' k'); first [done | lia].
    + destruct (IH buf (S i) j) as (buf' & Hloop & Hsh' & HW & HF);
        [done | lia | | lia |].
      { intros p b' Hp Hb'. replace (S i + p) with (i + S p) by lia.
        by apply (Hcur (S p) b'). }
      exists buf'. split; [done|]. split; [done|]. split.
      * intros [|p] b' k' r' Hp Hb' Hk' Hr'.
        -- simpl in Hp. congruence.
        -- replace (i + S p) with (S i + p) in * by lia.
           rewrite (HW p b' k' r') by done. simpl take.
           rewrite count_true_cons, Hb. f_equal.
      * intros r' c Hno. apply HF.
        intros p b' k' -> Hp Hb' Hk' Hr'.
        apply (Hno (S p) b' k'); first [done | lia].
Qed.

(** The call as a whole, on a buffer of [B] rows and [N] columns. *)
Lemma insert_at_indices_spec buf B N cursors indices values :
  shape buf B N -> length indices = N -> length cursors = N ->
  (forall c b k, indices !! c = Some b -> truthy b = true -> cursors !! c = Some k ->
     (- Z.of_nat B <= k < Z.of_nat B)%Z) ->
  count_true indices <= length values ->
  exists buf', insert_at_indices buf cursors indices values = Ok buf' /\
    shape buf' B N /\
    (forall r c, targeted B cursors indices r c ->
       is_Some (cell buf' r c) /\
       cell buf' r c = values !! count_true (take c indices)) /\
    (forall r c, ~ targeted B cursors indices r c -> cell buf' r c = cell buf r c).
Proof.
  intros Hsh Hi Hc Hvalid Hcount. unfold insert_at_indices.
  destruct (decide (0 < length values)) as [Hpos|Hzero].
  - destruct (insert_loop_spec values cursors B N indices buf 0 0)
      as (buf' & Hloop & Hsh' & HW & HF); [done | simpl; lia | | simpl; lia |].
    { intros p b Hp Hb. simpl.
      destruct (lookup_lt_is_Some_2 cursors p) as [k Hk].
      { apply lookup_lt_Some in Hp. lia. }
      destruct (norm_index_valid B k) as [r Hr]; [by eapply Hvalid|]. eauto. }
    exists buf'. split; [done|]. split; [done|]. split.
    + intros r c (b & k & Hb & Htb & Hk & Hr).
      specialize (HW c b k r Hb Htb Hk Hr). simpl in HW. rewrite HW.
      split; [|done]. apply lookup_lt_is_Some_2.
      pose proof (count_true_take_lt indices c b Hb Htb). lia.
    + intros r c Hno. apply HF. intros p b k -> Hp Hb Hk Hr.
      apply Hno. exists b, k. done.
  - exists buf. split; [done|]. split; [done|]. split; [|done].
    intros r c (b & k & Hb & Htb & _).
    pose proof (count_true_take_lt indices c b Hb Htb). lia.
Qed.
End InsertFacts.

(** C8. [insert_at_indices] writes the targeted cells and nothing else: with
    empty [values] the call returns the buffer as it is, without error,
    whatever the other arguments; and on a buffer of [B] rows and [N]
    columns, with a filter and cursors of length [N], cursors that are
    indices of the rows where the filter is set, and at least as many
    [values] as set filter entries, the call succeeds, the cell
    [buffer[cursors[c], c]] of the k-th set column [c] holds [values[k]],
    and every other cell is unchanged. *)
Theorem insert_at_indices_frame :
  (forall (V : Type) (buf : buffer V) (cursors indices : list Z),
     insert_at_indices buf cursors indices [] = Ok buf) /\
  (forall (V : Type) (buf : buffer V) (B N : nat) (cursors indices : list Z)
          (values : list V),
     shape buf B N -> length indices = N -> length cursors = N ->
     (forall c b k, indices !! c = Some b -> truthy b = true -> cursors !! c = Some k ->
        (- Z.of_nat B <= k < Z.of_nat B)%Z) ->
     count_true indices <= length values ->
     exists buf', insert_at_indices buf cursors indices values = Ok buf' /\
       shape buf' B N /\
       (forall r c, targeted B cursors indices r c ->
          is_Some (cell buf' r c) /\
          cell buf' r c = values !! count_true (take c indices)) /\
       (forall r c, ~ targeted B cursors indices r c -> cell buf' r c = cell buf r c)).
Proof.
  split.
  - intros V buf cursors indices. done.
  - intros V buf B N cursors indices values. apply insert_at_indices_spec.
Qed.

Lemma insert_at_indices_frame_witness :
  exists buf', insert_at_indices [[0; 0; 0]; [0; 0; 0]]%Z [0; 1; 1]%Z [1; 0; 1]%Z [7; 9]%Z
               = Ok buf' /\
    shape buf' 2 3 /\
    (forall r c, targeted 2 [0; 1; 1]%Z [1; 0; 1]%Z r c ->
       is_Some (cell buf' r c) /\
       cell buf' r c = [7; 9]%Z !! count_true (take c [1; 0; 1]%Z)) /\
    (forall r c, ~ targeted 2 [0; 1; 1]%Z [1; 0; 1]%Z r c ->
       cell buf' r c = cell [[0; 0; 0]; [0; 0; 0]]%Z r c).
Proof.
  apply (proj2 insert_at_indices_frame Z _ 2 3).
  - split; [reflexivity | repeat constructor].
  - reflexivity.
  - reflexivity.
  - intros [|[|[|c]]] b k Hb _ Hk; simpl in *; try discriminate;
      injection Hk as <-; lia.
  - vm_compute. lia.
Defined.

(** ** The reward and done writes of a sub-step *)

Lemma count_true_le_length (l : list Z) : count_true l <= length l.
Proof.
  induction l as [|b l IH]; [done|]. rewrite count_true_cons. simpl.
  destruct (truthy b); lia.
Qed.

Lemma truthy_to_int (b : bool) : truthy (to_int b) = b.
Proof. by destruct b. Qed.

Lemma lost_lookup (done_flags : list bool) (train_ids_ : list Z) (i : nat) (b : Z) :
  lost_on_opponent_turn done_flags train_ids_ !! i = Some b <->
  exists d t, done_flags !! i = Some d /\ train_ids_ !! i = Some t /\
              b = to_int (d && negb (truthy t)).
Proof.
  unfold lost_on_opponent_turn.
  rewrite list_lookup_fmap, lookup_zip_with, !list_lookup_fmap.
  destruct (done_flags !! i) as [d|], (train_ids_ !! i) as [t|]; simpl; split;
    try (intros [= <-]; by eauto);
    try (intros (? & ? & ? & ? & ?); congruence).
Qed.

Section TwoWrites.
Context {V : Type}.

(** The two writes to one of the buffers: first at the cursors under the
    filter [train_ids], then one row earlier under the filter of the
    episodes lost on an opponent's turn. *)
Lemma two_writes_spec (buf : buffer V) (B N : nat) (steps_ train_ids_ : list Z)
    (done_flags : list bool) (vals : list V) :
  shape buf B N -> length steps_ = N -> length train_ids_ = N ->
  length done_flags = N -> length vals = N ->
  (forall i s, steps_ !! i = Some s -> (0 <= s < Z.of_nat B)%Z) ->
  exists buf1 buf2,
    insert_at_indices buf steps_ train_ids_ vals = Ok buf1 /\
    insert_at_indices buf1 ((fun s => s - 1)%Z <$> steps_)
      (lost_on_opponent_turn done_flags train_ids_) vals = Ok buf2 /\
    shape buf1 B N /\ shape buf2 B N /\
    (forall r i, written_cell B steps_ train_ids_ done_flags r i ->
       exists k v, vals !! k = Some v /\ cell buf2 r i = Some v) /\
    (forall r i, ~ written_cell B steps_ train_ids_ done_flags r i ->
       cell buf2 r i = cell buf r i).
Proof.
  intros Hsh Hs Ht Hd Hv Hvalid.
  set (lost := lost_on_opponent_turn done_flags train_ids_).
  set (steps_1 := (fun s => s - 1)%Z <$> steps_).
  destruct (insert_at_indices_spec buf B N steps_ train_ids_ vals)
    as (buf1 & E1 & Hsh1 & HW1 & HF1); [done..| | |].
  { intros c b k _ _ Hk. specialize (Hvalid c k Hk). lia. }
  { pose proof (count_true_le_length train_ids_). lia. }
  assert (length lost = N) as Hlost.
  { unfold lost, lost_on_opponent_turn.
    rewrite length_fmap, length_zip_with, !length_fmap. lia. }
  destruct (insert_at_indices_spec buf1 B N steps_1 lost vals)
    as (buf2 & E2 & Hsh2 & HW2 & HF2); [done | done | | | |].
  { unfold steps_1. by rewrite length_fmap. }
  { intros c b k _ _ Hk. unfold steps_1 in Hk. rewrite list_lookup_fmap in Hk.
    destruct (steps_ !! c) as [s|] eqn:Es; [|done]. injection Hk as <-.
    specialize (Hvalid c s Es). lia. }
  { pose proof (count_true_le_length lost). lia. }
  assert (forall r i, targeted B steps_1 lost r i <->
            exists s t, steps_ !! i = Some s /\ train_ids_ !! i = Some t /\
              done_flags !! i = Some true /\ truthy t = false /\
              norm_index B (s - 1) = Ok r) as Hsecond.
  { intros r i. unfold targeted, steps_1. split.
    - intros (b & k & Hb & Htb & Hk & Hr).
      apply lost_lookup in Hb as (d & t & Hd' & Ht' & ->).
      rewrite truthy_to_int in Htb. apply andb_true_iff in Htb as [-> Hneg].
      rewrite list_lookup_fmap in Hk.
      destruct (steps_ !! i) as [s|]; [|done]. injection Hk as <-.
      exists s, t. repeat split; try done. by destruct (truthy t).
    - intros (s & t & Hs' & Ht' & Hd' & Htf & Hr).
      exists (to_int (true && negb (truthy t))), (s - 1)%Z.
      split; [apply lost_lookup; eauto|].
      split; [by rewrite truthy_to_int, Htf|].
      split; [by rewrite list_lookup_fmap, Hs'|done]. }
  exists buf1, buf2. repeat (split; [done|]). split.
  - intros r i (s & t & d & Hs' & Ht' & Hd' & [[Htt Hr] | (Htf & -> & Hr)]).
    + assert (~ targeted B steps_1 lost r i) as Hn2.
      { rewrite Hsecond. intros (s' & t' & _ & Ht'' & _ & Htf & _). congruence. }
      rewrite (HF2 r i Hn2).
      destruct (HW1 r i) as [[v Hc] Heq]; [exists t, s; done|].
      exists (count_true (take i train_ids_)), v. by rewrite <- Heq.
    + destruct (HW2 r i) as [[v Hc] Heq]; [apply Hsecond; eauto 10|].
      exists (count_true (take i lost)), v. by rewrite <- Heq.
  - intros r i Hn. rewrite HF2, HF1; [done| |].
    + intros (t & s & Ht' & Htt & Hs' & Hr). apply Hn.
      destruct (lookup_lt_is_Some_2 done_flags i) as [d Hd'].
      { apply lookup_lt_Some in Ht'. lia. }
      exists s, t, d. eauto 10.
    + rewrite Hsecond. intros (s & t & Hs' & Ht' & Hd' & Htf & Hr). apply Hn.
      exists s, t, true. eauto 10.
Qed.
End TwoWrites.

(** C2 (amended).  The reward and done writes of a sub-step, on buffers of
    [B] rows and [N] environments with cursors in [0, B): the writes succeed;
    a cell is written exactly when it is the cell at the current cursor of
    an environment where the learning agent acted, or the cell one row
    earlier (as a Python index) of an environment whose episode ended on an
    opponent's turn; a written cell holds an entry of the step's reward
    (done) vector, every other cell is unchanged; in particular an
    environment where the learning agent acted is written at its current
    cursor only. *)
Theorem reward_done_writes (F : Type) `{Arith F} (rewards_ dones_ : buffer F) (B N : nat)
    (steps_ train_ids_ : list Z) (reward_ : list F) (done_flags : list bool) :
  shape rewards_ B N -> shape dones_ B N ->
  length steps_ = N -> length train_ids_ = N ->
  length reward_ = N -> length done_flags = N ->
  (forall i s, steps_ !! i = Some s -> (0 <= s < Z.of_nat B)%Z) ->
  exists rewards' dones',
    write_reward_done rewards_ dones_ steps_ train_ids_ reward_ done_flags
      = Ok (rewards', dones') /\
    (forall r i, written_cell B steps_ train_ids_ done_flags r i ->
       (exists k v, reward_ !! k = Some v /\ cell rewards' r i = Some v) /\
       (exists k d, done_flags !! k = Some d /\ cell dones' r i = Some (float_of_bool d))) /\
    (forall r i, ~ written_cell B steps_ train_ids_ done_flags r i ->
       cell rewards' r i = cell rewards_ r i /\ cell dones' r i = cell dones_ r i) /\
    (forall r i s t, steps_ !! i = Some s -> train_ids_ !! i = Some t -> truthy t = true ->
       r <> Z.to_nat s ->
       cell rewards' r i = cell rewards_ r i /\ cell dones' r i = cell dones_ r i).
Proof.
  intros Hr Hd Hs Ht Hrw Hdf Hvalid.
  destruct (two_writes_spec rewards_ B N steps_ train_ids_ done_flags reward_)
    as (r1 & r2 & Er1 & Er2 & _ & _ & HWr & HFr); [done..|].
  destruct (two_writes_spec dones_ B N steps_ train_ids_ done_flags
              (float_of_bool <$> done_flags))
    as (d1 & d2 & Ed1 & Ed2 & _ & _ & HWd & HFd); [done.. | by rewrite length_fmap | done |].
  assert (forall r i, ~ written_cell B steps_ train_ids_ done_flags r i ->
            cell r2 r i = cell rewards_ r i /\ cell d2 r i = cell dones_ r i) as Hframe.
  { intros r i Hn. split; [by apply HFr | by apply HFd]. }
  exists r2, d2. split; [|split; [|split]].
  - unfold write_reward_done. rewrite Er1. simpl. rewrite Ed1. simpl.
    rewrite Er2. simpl. rewrite Ed2. done.
  - intros r i Hw. split; [by apply HWr|].
    destruct (HWd r i Hw) as (k & v & Hk & Hc).
    rewrite list_lookup_fmap in Hk.
    destruct (done_flags !! k) as [d|] eqn:Ek; [|done].
    injection Hk as <-. eauto.
  - done.
  - intros r i s t Hs' Ht' Htt Hne. apply Hframe.
    intros (s' & t' & d & Hs'' & Ht'' & _ & [[_ Hn] | [Htf _]]); [|congruence].
    assert (s' = s) as -> by congruence.
    rewrite norm_index_nonneg in Hn by eauto. congruence.
Qed.

Lemma reward_done_writes_witness :
  exists rewards' dones',
    write_reward_done (F := Z) [[0; 0]; [0; 0]; [0; 0]]%Z [[0; 0]; [0; 0]; [0; 0]]%Z
      [1; 1]%Z [0; 1]%Z [5; 7]%Z [true; false] = Ok (rewards', dones') /\
    (forall r i, written_cell 3 [1; 1]%Z [0; 1]%Z [true; false] r i ->
       (exists k v, [5; 7]%Z !! k = Some v /\ cell rewards' r i = Some v) /\
       (exists k d, [true; false] !! k = Some d /\
                    cell dones' r i = Some (float_of_bool d))) /\
    (forall r i, ~ written_cell 3 [1; 1]%Z [0; 1]%Z [true; false] r i ->
       cell rewards' r i = cell [[0; 0]; [0; 0]; [0; 0]]%Z r i /\
       cell dones' r i = cell [[0; 0]; [0; 0]; [0; 0]]%Z r i) /\
    (forall r i s t, [1; 1]%Z !! i = Some s -> [0; 1]%Z !! i = Some t -> truthy t = true ->
       r <> Z.to_nat s ->
       cell rewards' r i = cell [[0; 0]; [0; 0]; [0; 0]]%Z r i /\
       cell dones' r i = cell [[0; 0]; [0; 0]; [0; 0]]%Z r i).
Proof.
  apply (reward_done_writes Z _ _ 3 2).
  - split; [reflexivity | repeat constructor].
  - split; [reflexivity | repeat constructor].
  - reflexivity.
  - reflexivity.
  - reflexivity.
  - reflexivity.
  - intros [|[|i]] s Hs; simpl in Hs; try discriminate; injection Hs as <-; lia.
Defined.

(** C2 as stated fails: with the learning agent to act in environment 1
    only and no episode over, environment 0 is not written at its cursor and
    environment 1 gets the reward of environment 0. *)
Lemma reward_done_not_for_all_envs :
  exists rewards' dones',
    write_reward_done (F := Z) [[0; 0]; [0; 0]; [0; 0]]%Z [[0; 0]; [0; 0]; [0; 0]]%Z
      [1; 1]%Z [0; 1]%Z [5; 7]%Z [false; false] = Ok (rewards', dones') /\
    cell rewards' 1 0 = Some 0%Z /\
    cell rewards' 1 1 = Some 5%Z /\
    ~ own_value_at_cursor rewards' [1; 1]%Z [5; 7]%Z.
Proof.
  eexists _, _. split; [vm_compute; reflexivity|].
  split; [reflexivity|]. split; [reflexivity|].
  intros Hown. specialize (Hown 0 1%Z 5%Z eq_refl eq_refl). discriminate.
Qed.

(** ** [split_obs] *)

Section SplitFacts.
Context {A : Type}.
Implicit Types (t : list (list A)) (filter : list bool).

Lemma select_row_replicate (row : list A) (b : bool) :
  select_row row (replicate (length row) b) = if b then row else [].
Proof.
  induction row as [|a row IH]; simpl; [by destruct b|].
  rewrite IH. by destruct b.
Qed.

Lemma repeat_last_shape t filter D :
  Forall (fun row => length row = D) t -> length t = length filter ->
  map length t = map length (repeat_last filter D).
Proof.
  intros Ht. revert filter.
  induction Ht as [|row t Hrow Ht IH]; intros [|b filter] Hlen; simpl in *; try done.
  rewrite length_replicate, Hrow. f_equal. apply IH. lia.
Qed.

Lemma select_repeat_last t filter D :
  Forall (fun row => length row = D) t -> length t = length filter ->
  concat (zip_with select_row t (repeat_last filter D)) = concat (group_of true t filter).
Proof.
  intros Ht. revert filter.
  induction Ht as [|row t Hrow Ht IH]; intros [|b filter] Hlen; simpl in *; try done.
  rewrite <- Hrow, select_row_replicate, Hrow, IH by lia.
  by destruct b.
Qed.

Lemma invert_repeat_last filter D :
  invert (repeat_last filter D) = repeat_last (map negb filter) D.
Proof.
  unfold invert, repeat_last. rewrite !map_map. apply map_ext.
  intros b. change (map negb (replicate D b)) with (negb <$> replicate D b).
  by rewrite fmap_replicate.
Qed.

Lemma group_of_negb t filter :
  group_of true t (map negb filter) = group_of false t filter.
Proof.
  revert filter. induction t as [|row t IH]; intros [|b filter]; simpl; try done.
  rewrite IH. by destruct b.
Qed.

Lemma group_of_wf keep t filter D :
  Forall (fun row => length row = D) t ->
  Forall (fun row => length row = D) (group_of keep t filter).
Proof.
  intros Ht. revert filter.
  induction Ht as [|row t Hrow Ht IH]; intros [|b filter]; simpl; try done.
  destruct (bool_decide (b = keep)); [constructor|]; auto.
Qed.

Lemma length_concat_uniform t D :
  Forall (fun row => length row = D) t -> length (concat t) = length t * D.
Proof.
  induction 1 as [|row t Hrow Ht IH]; simpl; [done|].
  rewrite length_app, IH, Hrow. lia.
Qed.

Lemma chunks_concat t D :
  Forall (fun row => length row = D) t -> chunks (length t) D (concat t) = t.
Proof.
  induction 1 as [|row t Hrow Ht IH]; simpl; [done|].
  assert (take D (row ++ concat t) = row) as ->.
  { rewrite <- Hrow. apply take_app_length. }
  assert (drop D (row ++ concat t) = concat t) as ->.
  { rewrite <- Hrow. apply drop_app_length. }
  by rewrite IH.
Qed.

Lemma reshape_concat t D :
  Forall (fun row => length row = D) t -> 0 < D ->
  reshape_rows (concat t) D = Ok (Tensor2 t D).
Proof.
  intros Ht HD. unfold reshape_rows.
  destruct (decide (D = 0)) as [|_]; [lia|].
  rewrite (length_concat_uniform t D Ht), Nat.Div0.mod_mul.
  destruct (decide (0 = 0)) as [_|]; [|done].
  rewrite Nat.div_mul by lia. by rewrite chunks_concat.
Qed.

(** On a tensor with rows of a positive length, one line of [split_obs]
    gives the rows where the filter is set and the rows where it is not,
    each group in the order of the tensor. *)
Lemma split_tensor_spec (x : tensor2 A) filter :
  wf_tensor2 x -> 0 < ncols x -> length (rows x) = length filter ->
  split_tensor x filter =
    Ok (Tensor2 (group_of true (rows x) filter) (ncols x),
        Tensor2 (group_of false (rows x) filter) (ncols x)).
Proof.
  intros Hwf HD Hlen. unfold split_tensor, masked_select.
  rewrite invert_repeat_last.
  destruct (decide (map length (rows x) = map length (repeat_last filter (ncols x))))
    as [_|Hn]; [|by destruct Hn; apply repeat_last_shape].
  simpl. rewrite select_repeat_last, reshape_concat by (done || by apply group_of_wf).
  simpl.
  destruct (decide (map length (rows x)
                    = map length (repeat_last (map negb filter) (ncols x))))
    as [_|Hn]; [|destruct Hn; apply repeat_last_shape; [done|by rewrite length_map]].
  simpl. rewrite select_repeat_last by (done || by rewrite length_map).
  rewrite group_of_negb, reshape_concat by (done || by apply group_of_wf).
  done.
Qed.

Lemma length_group_of_true t filter :
  length t = length filter ->
  length (group_of true t filter) = count_true (to_int <$> filter).
Proof.
  revert filter. induction t as [|row t IH]; intros [|b filter] Hlen; simpl in *; try done.
  rewrite count_true_cons, truthy_to_int.
  destruct b; simpl; rewrite IH by lia; done.
Qed.
End SplitFacts.

Lemma tensor_sum_to_int (filter : list bool) :
  tensor_sum (to_int <$> filter) = Z.of_nat (count_true (to_int <$> filter)).
Proof.
  induction filter as [|b filter IH]; [done|].
  rewrite fmap_cons, count_true_cons, truthy_to_int. simpl. rewrite IH.
  destruct b; simpl; lia.
Qed.

(** C9. In a sub-step whose turn data were read from the environment
    ([train_ids] is the 0/1 tensor of [learning_id == player_id]),
    [global_step] grows by the number of set entries of [train_ids], which
    is zero when the learning agent has no rows. *)
Theorem global_step_advance (O M : Type) (gs : Z) (learning_player player : list Z)
    (obs : tensor2 O) (masks : tensor2 M) :
  wf_tensor2 obs -> wf_tensor2 masks -> 0 < ncols obs -> 0 < ncols masks ->
  length learning_player = length (rows obs) ->
  length player = length (rows obs) ->
  length (rows masks) = length (rows obs) ->
  advance_global_step gs (read_turn learning_player player) obs masks
    = Ok (gs + Z.of_nat (count_true (train_ids (read_turn learning_player player))))%Z.
Proof.
  intros Hobs Hmasks HDo HDm Hl Hp Hm.
  unfold advance_global_step, split_obs, read_turn. simpl.
  assert (length (tensor_eq learning_player player) = length (rows obs)) as Hf.
  { unfold tensor_eq. rewrite length_zip_with. lia. }
  rewrite !split_tensor_spec by (done || lia). simpl.
  rewrite length_group_of_true by lia.
  rewrite tensor_sum_to_int.
  destruct (decide (0 < count_true (to_int <$> tensor_eq learning_player player)))
    as [|Hz]; [done|].
  f_equal. lia.
Qed.

Lemma global_step_advance_witness :
  advance_global_step 10 (read_turn [0; 1; 1]%Z [0; 0; 1]%Z)
    (Tensor2 [[1; 2]; [3; 4]; [5; 6]]%Z 2) (Tensor2 [[true]; [false]; [true]] 1)
  = Ok (10 + Z.of_nat (count_true (train_ids (read_turn [0; 1; 1]%Z [0; 0; 1]%Z))))%Z.
Proof.
  apply (global_step_advance Z bool); try reflexivity; try (simpl; lia);
    repeat constructor.
Defined.

(** ** [merge_actions] *)

Lemma count_true_take_le (l : list Z) (p : nat) : count_true (take p l) <= p.
Proof.
  pose proof (count_true_le_length (take p l)). rewrite length_take in *. lia.
Qed.

Section GroupFacts.
Context {A : Type}.
Implicit Types (t : list (list A)) (filter : list bool).

Lemma length_group_of_false t filter :
  length t = length filter ->
  length (group_of false t filter) = length filter - count_true (to_int <$> filter).
Proof.
  intros Hlen. rewrite <- (length_group_of_true t filter Hlen).
  enough (length (group_of true t filter) + length (group_of false t filter)
          = length filter) by lia.
  revert filter Hlen.
  induction t as [|row t IH]; intros [|b filter] Hlen; simpl in *; try done.
  specialize (IH filter). destruct b; simpl; lia.
Qed.

Lemma group_of_lookup_true t filter p row :
  t !! p = Some row -> filter !! p = Some true ->
  group_of true t filter !! count_true (to_int <$> take p filter) = Some row.
Proof.
  revert filter p.
  induction t as [|r t IH]; intros [|b filter] [|p] Ht Hf; simpl in *; try done.
  - by injection Hf as ->.
  - rewrite count_true_cons, truthy_to_int. destruct b; simpl; by apply IH.
Qed.

Lemma group_of_lookup_false t filter p row :
  t !! p = Some row -> filter !! p = Some false ->
  group_of false t filter !! (p - count_true (to_int <$> take p filter)) = Some row.
Proof.
  revert filter p.
  induction t as [|r t IH]; intros [|b filter] [|p] Ht Hf; simpl in *; try done.
  - by injection Hf as ->.
  - rewrite count_true_cons, truthy_to_int.
    pose proof (count_true_take_le (to_int <$> filter) p) as Hle.
    rewrite <- fmap_take in Hle.
    destruct b; simpl.
    + by apply IH.
    + rewrite Nat.sub_succ_l by done. by apply IH.
Qed.
End GroupFacts.

Section MergeFacts.
Context {A : Type}.
Implicit Types (results actions opp_actions : list A).

(** The loop from position [i + j] of [results] on, with [i] actions of
    the learning agent and [j] of the opponent consumed. *)
Lemma merge_loop_spec actions opp_actions : forall rest results i j,
  i + j + length rest <= length results ->
  i + count_true rest <= length actions ->
  j + (length rest - count_true rest) <= length opp_actions ->
  exists res, merge_loop results actions opp_actions rest i j = Ok res /\
    length res = length results /\
    (forall p b, rest !! p = Some b ->
       res !! (i + j + p) =
         if truthy b then actions !! (i + count_true (take p rest))
         else opp_actions !! (j + (p - count_true (take p rest)))) /\
    (forall q, q < i + j -> res !! q = results !! q).
Proof.
  induction rest as [|b rest IH]; intros results i j Hres Hact Hopp.
  - exists results. simpl. split; [done|]. split; [done|]. split; [|done].
    intros p b Hp. by rewrite lookup_nil in Hp.
  - simpl in Hres, Hopp. rewrite count_true_cons in Hact, Hopp. simpl.
    pose proof (count_true_le_length rest) as Hle.
    destruct (truthy b) eqn:Hb.
    + destruct (getitem_lt actions i) as (a & Ha & Ha'); [lia|].
      rewrite Ha. simpl. unfold setitem.
      destruct (decide (i + j < length results)) as [_|]; [|lia]. simpl.
      destruct (IH (<[i + j := a]> results) (S i) j)
        as (res & Hloop & Hlen & HW & HF); [rewrite length_insert; lia | lia | lia |].
      exists res. split; [done|]. rewrite length_insert in Hlen. split; [done|]. split.
      * intros [|p] b' Hp; simpl in Hp.
        -- injection Hp as <-. rewrite Hb, take_0, count_true_nil, !Nat.add_0_r.
           rewrite HF by lia. rewrite list_lookup_insert_eq by lia. done.
        -- replace (i + j + S p) with (S i + j + p) by lia.
           rewrite (HW p b' Hp). simpl take. rewrite count_true_cons, Hb.
           destruct (truthy b'); f_equal; lia.
      * intros q Hq. rewrite HF by lia. apply list_lookup_insert_ne. lia.
    + destruct (getitem_lt opp_actions j) as (a & Ha & Ha'); [lia|].
      rewrite Ha. simpl. unfold setitem.
      destruct (decide (i + j < length results)) as [_|]; [|lia]. simpl.
      destruct (IH (<[i + j := a]> results) i (S j))
        as (res & Hloop & Hlen & HW & HF); [rewrite length_insert; lia | lia | lia |].
      exists res. split; [done|]. rewrite length_insert in Hlen. split; [done|]. split.
      * intros [|p] b' Hp; simpl in Hp.
        -- injection Hp as <-. rewrite Hb, take_0, count_true_nil, !Nat.add_0_r.
           rewrite HF by lia. rewrite list_lookup_insert_eq by lia. done.
        -- replace (i + j + S p) with (i + S j + p) by lia.
           rewrite (HW p b' Hp). simpl take. rewrite count_true_cons, Hb.
           pose proof (count_true_take_le rest p).
           destruct (truthy b'); f_equal; lia.
      * intros q Hq. rewrite HF by lia. apply list_lookup_insert_ne. lia.
Qed.
End MergeFacts.

(** C7. On an observation and a mask batch with rows of positive length
    and a filter with one entry per row, [split_obs] gives the rows where
    the filter is set and the rows where it is not, each group in the order
    of the batch; and for action tensors that correspond row by row to the
    two groups ([P] relates a learning-agent row and its mask to its
    action, [Q] an opponent row), [merge_actions] gives a tensor with one
    entry per filter entry whose row [i] is an action of row [i] of the
    batch. *)
Theorem split_merge_roundtrip (O M A : Type) (zero : A) (obs : tensor2 O) (mask : tensor2 M)
    (filter : list bool) (P Q : list O -> list M -> A -> Prop) :
  wf_tensor2 obs -> wf_tensor2 mask -> 0 < ncols obs -> 0 < ncols mask ->
  length (rows obs) = length filter -> length (rows mask) = length filter ->
  exists obs_ opp_obs mask_ opp_mask,
    split_obs obs mask filter = Ok ((obs_, opp_obs), (mask_, opp_mask)) /\
    rows obs_ = group_of true (rows obs) filter /\
    rows opp_obs = group_of false (rows obs) filter /\
    rows mask_ = group_of true (rows mask) filter /\
    rows opp_mask = group_of false (rows mask) filter /\
    forall actions opp_actions,
      Forall3 P (rows obs_) (rows mask_) actions ->
      Forall3 Q (rows opp_obs) (rows opp_mask) opp_actions ->
      exists res,
        merge_actions zero (to_int <$> filter) actions opp_actions = Ok res /\
        length res = length filter /\
        forall (i : nat) (o : list O) (m : list M) (b : bool),
          rows obs !! i = Some o -> rows mask !! i = Some m -> filter !! i = Some b ->
          exists a, res !! i = Some a /\ if b then P o m a else Q o m a.
Proof.
  intros Hobs Hmask HDo HDm Hlo Hlm.
  eexists _, _, _, _. split.
  { unfold split_obs. rewrite !split_tensor_spec by done. simpl. reflexivity. }
  simpl. repeat (split; [reflexivity|]).
  intros actions opp_actions HP HQ.
  pose proof HP as Hla. apply Forall3_length_lr in Hla.
  pose proof HQ as Hlq. apply Forall3_length_lr in Hlq.
  rewrite length_group_of_true in Hla by done.
  rewrite length_group_of_false in Hlq by done.
  pose proof (count_true_le_length (to_int <$> filter)) as Hle.
  rewrite length_fmap in Hle.
  destruct (merge_loop_spec actions opp_actions (to_int <$> filter)
              (replicate (length actions + length opp_actions) zero) 0 0)
    as (res & Hloop & Hlen & HW & _).
  { rewrite length_replicate, length_fmap. simpl. lia. }
  { simpl. lia. }
  { rewrite length_fmap. simpl. lia. }
  exists res. split; [done|].
  rewrite length_replicate in Hlen. split; [lia|].
  intros i o m b Ho Hm Hb.
  specialize (HW i (to_int b)). rewrite list_lookup_fmap, Hb in HW.
  specialize (HW eq_refl). simpl in HW. rewrite truthy_to_int, <- fmap_take in HW.
  destruct b.
  - pose proof (group_of_lookup_true _ _ _ _ Ho Hb) as Hgo.
    pose proof (group_of_lookup_true _ _ _ _ Hm Hb) as Hgm.
    destruct (lookup_lt_is_Some_2 actions (count_true (to_int <$> take i filter)))
      as [a Ha].
    { apply lookup_lt_Some in Hgo. rewrite length_group_of_true in Hgo by done. lia. }
    exists a. split; [by rewrite HW|].
    by eapply Forall3_lookup_lmr.
  - pose proof (group_of_lookup_false _ _ _ _ Ho Hb) as Hgo.
    pose proof (group_of_lookup_false _ _ _ _ Hm Hb) as Hgm.
    destruct (lookup_lt_is_Some_2 opp_actions (i - count_true (to_int <$> take i filter)))
      as [a Ha].
    { apply lookup_lt_Some in Hgo. rewrite length_group_of_false in Hgo by done. lia. }
    exists a. split; [by rewrite HW|].
    by eapply Forall3_lookup_lmr.
Qed.

Lemma split_merge_roundtrip_witness :
  let obs := Tensor2 [[1]; [2]; [3]]%Z 1 in
  let mask := Tensor2 [[true]; [false]; [true]] 1 in
  let filter := [true; false; true] in
  let P := fun (o : list Z) (m : list bool) (a : Z) => a = (hd 0 o + 10)%Z in
  let Q := fun (o : list Z) (m : list bool) (a : Z) => a = (hd 0 o + 20)%Z in
  exists obs_ opp_obs mask_ opp_mask,
    split_obs obs mask filter = Ok ((obs_, opp_obs), (mask_, opp_mask)) /\
    rows obs_ = group_of true (rows obs) filter /\
    rows opp_obs = group_of false (rows obs) filter /\
    rows mask_ = group_of true (rows mask) filter /\
    rows opp_mask = group_of false (rows mask) filter /\
    forall actions opp_actions,
      Forall3 P (rows obs_) (rows mask_) actions ->
      Forall3 Q (rows opp_obs) (rows opp_mask) opp_actions ->
      exists res,
        merge_actions 0%Z (to_int <$> filter) actions opp_actions = Ok res /\
        length res = length filter /\
        forall (i : nat) (o : list Z) (m : list bool) (b : bool),
          rows obs !! i = Some o -> rows mask !! i = Some m -> filter !! i = Some b ->
          exists a, res !! i = Some a /\ if b then P o m a else Q o m a.
Proof.
  intros obs mask filter P Q.
  apply (split_merge_roundtrip Z bool Z 0%Z obs mask filter P Q).
  - repeat constructor.
  - repeat constructor.
  - simpl. lia.
  - simpl. lia.
  - reflexivity.
  - reflexivity.
Defined.

(** ** The pool of the self-play assistant *)

Lemma trim_last_entries {A : Type} (l : list A) (x : A) (w : nat) :
  (let l' := last_entries w l ++ [x] in
   if decide (w < length l') then drop 1 l' else l')
  = last_entries w (l ++ [x]).
Proof.
  unfold last_entries. simpl. rewrite !length_app, length_drop. simpl.
  destruct (decide (length l < w)) as [Hlt|Hge].
  - replace (length l - w) with 0 by lia. simpl.
    destruct (decide (w < length l - 0 + 1)); [lia|].
    by replace (length l + 1 - w) with 0 by lia.
  - destruct (decide (w < length l - (length l - w) + 1)); [|lia].
    destruct w as [|w].
    + rewrite !Nat.sub_0_r, drop_all. simpl.
      rewrite drop_ge; [done|]. rewrite length_app. simpl. lia.
    + replace (length l + 1 - S w) with (S (length l - S w)) by lia.
      rewrite (drop_app_le l [x] (S (length l - S w))) by lia.
      destruct (drop (length l - S w) l) as [|y k] eqn:E.
      * apply (f_equal length) in E. rewrite length_drop in E. simpl in E. lia.
      * simpl. f_equal. rewrite drop_0.
        change (S (length l - S w)) with (1 + (length l - S w)).
        by rewrite Nat.add_comm, <- drop_drop, E.
Qed.

Lemma deque_append_last {A : Type} (d : deque A) (x : A) (l : list A) :
  items d = last_entries (maxlen d) l ->
  items (deque_append d x) = last_entries (maxlen d) (l ++ [x]) /\
  maxlen (deque_append d x) = maxlen d.
Proof.
  intros Hd. unfold deque_append. simpl. split; [|done].
  rewrite Hd. apply trim_last_entries.
Qed.

Lemma length_last_entries {A : Type} (w : nat) (l : list A) :
  length (last_entries w l) = length l `min` w.
Proof. unfold last_entries. rewrite length_drop. lia. Qed.

Section PoolFacts.
Context {Agent G : Type} `{RandomGen G}.
Implicit Types (self : SelfPlayAssistant Agent G) (fs : gmap string Agent).

Lemma init_ok (cf window_ rf : Z) (p : Q) (save : bool) (dir : string)
    (seed_ : option Z) (g : G) :
  (0 <= window_)%Z ->
  exists self0 g',
    init cf window_ rf p save dir seed_ g = Ok (self0, g') /\
    checkpoints self0 = Deque [] (Z.to_nat window_) /\
    save_steps self0 = Deque [] (Z.to_nat window_) /\
    save_checkpoints self0 = save /\
    rnd self0 = Random (seed self0) /\
    seed self0 = (if seed_absent seed_ then (randbelow g 100001).1
                  else default 0%Z seed_).
Proof.
  intros Hw. unfold init, deque_new.
  destruct (window_ <? 0)%Z eqn:E; [apply Z.ltb_lt in E; lia|]. simpl.
  destruct (seed_absent seed_); simpl.
  - unfold randint. simpl. change (100000 - 0 + 1)%Z with 100001%Z.
    destruct (randbelow g 100001) as [r g']. simpl.
    eexists _, _. split; [reflexivity|]. simpl. done.
  - eexists _, _. split; [reflexivity|]. simpl. done.
Qed.

Lemma add_checkpoint_spec self fs agent step hist w :
  maxlen (checkpoints self) = w -> maxlen (save_steps self) = w ->
  items (checkpoints self) = last_entries w (pool_entry self <$> hist) ->
  items (save_steps self) = last_entries w (call_step <$> hist) ->
  let self' := (add_checkpoint self fs agent step).1 in
  maxlen (checkpoints self') = w /\ maxlen (save_steps self') = w /\
  items (checkpoints self')
    = last_entries w (pool_entry self <$> (hist ++ [(agent, step)])) /\
  items (save_steps self') = last_entries w (call_step <$> (hist ++ [(agent, step)])) /\
  save_checkpoints self' = save_checkpoints self /\
  checkpoint_dir self' = checkpoint_dir self.
Proof.
  intros Hmc Hms Hc Hs.
  rewrite <- Hmc in Hc. rewrite <- Hms in Hs.
  destruct (deque_append_last (checkpoints self)
              (pool_entry self (agent, step)) _ Hc) as [Hc' Hmc'].
  destruct (deque_append_last (save_steps self) (step_value step) _ Hs) as [Hs' Hms'].
  rewrite Hmc in Hc', Hmc'. rewrite Hms in Hs', Hms'.
  rewrite !fmap_app. simpl.
  unfold add_checkpoint, update_pool, pool_entry in *.
  destruct (save_checkpoints self) eqn:Esave; simpl;
    rewrite ?Esave; repeat split; try done.
  all: destruct step; done.
Qed.

Lemma add_checkpoints_spec w : forall calls self fs hist,
  maxlen (checkpoints self) = w -> maxlen (save_steps self) = w ->
  items (checkpoints self) = last_entries w (pool_entry self <$> hist) ->
  items (save_steps self) = last_entries w (call_step <$> hist) ->
  let self' := (add_checkpoints self fs calls).1 in
  maxlen (checkpoints self') = w /\ maxlen (save_steps self') = w /\
  items (checkpoints self') = last_entries w (pool_entry self <$> (hist ++ calls)) /\
  items (save_steps self') = last_entries w (call_step <$> (hist ++ calls)).
Proof.
  induction calls as [|[agent step] calls IH]; intros self fs hist Hmc Hms Hc Hs.
  - simpl. by rewrite app_nil_r.
  - simpl.
    pose proof (add_checkpoint_spec self fs agent step hist w Hmc Hms Hc Hs)
      as (Hmc' & Hms' & Hc' & Hs' & Hsave & Hdir).
    destruct (add_checkpoint self fs agent step) as [self1 fs1]. simpl in *.
    assert (pool_entry self1 = pool_entry self) as Hpe.
    { unfold pool_entry. by rewrite Hsave, Hdir. }
    rewrite <- Hpe in Hc'.
    specialize (IH self1 fs1 (hist ++ [(agent, step)]) Hmc' Hms' Hc' Hs').
    rewrite <- !(assoc_L (++)) in IH. simpl in IH. by rewrite Hpe in IH.
Qed.
End PoolFacts.

(** C6. For an assistant constructed with a capacity [window >= 0] and any
    sequence of [add_checkpoint] calls: [checkpoints] and [save_steps] have
    the same length, the minimum of the number of calls and [window]; the
    retained steps (and entries) are those of the [window] most recent calls
    in insertion order; and one more call grows neither collection by more
    than one entry. *)
Theorem pool_bounded_window (Agent G : Type) `{RandomGen G} (cf window_ rf : Z) (p : Q)
    (save : bool) (dir : string) (seed_ : option Z) (g : G) :
  (0 <= window_)%Z ->
  exists (self0 : SelfPlayAssistant Agent G) (g' : G),
    init cf window_ rf p save dir seed_ g = Ok (self0, g') /\
    forall (calls : list (Agent * step_arg)) (fs : gmap string Agent),
      let self := (add_checkpoints self0 fs calls).1 in
      length (items (checkpoints self)) = length (items (save_steps self)) /\
      length (items (save_steps self)) = length calls `min` Z.to_nat window_ /\
      items (save_steps self) = last_entries (Z.to_nat window_) (call_step <$> calls) /\
      items (checkpoints self) = last_entries (Z.to_nat window_) (pool_entry self0 <$> calls) /\
      forall (agent : Agent) (step : step_arg) (fs' : gmap string Agent),
        let self' := (add_checkpoint self fs' agent step).1 in
        length (items (save_steps self')) <= length (items (save_steps self)) + 1 /\
        length (items (checkpoints self')) <= length (items (checkpoints self)) + 1.
Proof.
  intros Hw.
  destruct (init_ok (Agent := Agent) cf window_ rf p save dir seed_ g Hw)
    as (self0 & g' & Hinit & Hc0 & Hs0 & _).
  exists self0, g'. split; [done|].
  intros calls fs.
  destruct (add_checkpoints_spec (Z.to_nat window_) calls self0 fs [])
    as (Hmc & Hms & Hc & Hs); [by rewrite Hc0 | by rewrite Hs0 | by rewrite Hc0
                              | by rewrite Hs0 |].
  simpl in Hc, Hs. cbv zeta.
  set (self := (add_checkpoints self0 fs calls).1) in *.
  assert (pool_entry self = pool_entry self0) as Hpe.
  { clear -self. subst self. revert self0 fs.
    induction calls as [|[a s] calls IH]; intros self0 fs; [done|]. simpl.
    destruct (add_checkpoint self0 fs a s) as [self1 fs1] eqn:E.
    rewrite IH. unfold add_checkpoint, update_pool in E.
    destruct (save_checkpoints self0) eqn:Es; injection E as <- <-;
      unfold pool_entry; simpl; by rewrite Es. }
  split; [by rewrite Hc, Hs, !length_last_entries, !length_fmap|].
  split; [by rewrite Hs, length_last_entries, length_fmap|].
  split; [done|]. split; [done|].
  intros agent step fs'.
  rewrite <- Hpe in Hc.
  pose proof (add_checkpoint_spec self fs' agent step calls _ Hmc Hms Hc Hs)
    as (_ & _ & Hc' & Hs' & _).
  rewrite Hc', Hs', Hc, Hs, !length_last_entries, !length_fmap, !length_app. simpl. lia.
Qed.

Lemma pool_bounded_window_witness :
  exists (self0 : SelfPlayAssistant nat Z) (g' : Z),
    init 5000 2 1000 (7 # 10) false "ckpt/" (Some 1%Z) 42%Z = Ok (self0, g') /\
    forall (calls : list (nat * step_arg)) (fs : gmap string nat),
      let self := (add_checkpoints self0 fs calls).1 in
      length (items (checkpoints self)) = length (items (save_steps self)) /\
      length (items (save_steps self)) = length calls `min` Z.to_nat 2 /\
      items (save_steps self) = last_entries (Z.to_nat 2) (call_step <$> calls) /\
      items (checkpoints self) = last_entries (Z.to_nat 2) (pool_entry self0 <$> calls) /\
      forall (agent : nat) (step : step_arg) (fs' : gmap string nat),
        let self' := (add_checkpoint self fs' agent step).1 in
        length (items (save_steps self')) <= length (items (save_steps self)) + 1 /\
        length (items (checkpoints self')) <= length (items (checkpoints self)) + 1.
Proof.
  apply (pool_bounded_window nat Z). lia.
Defined.

(** ** Sampling an opponent *)

Lemma deque_getattr_get :
  deque_getattr "get" = Raise (AttributeError "collections.deque" "get").
Proof. reflexivity. Qed.

Section SampleFacts.
Context {Agent G : Type} `{RandomGenLaws G}.
Implicit Types (self : SelfPlayAssistant Agent G) (fs : gmap string Agent).

(** The index drawn on a pool of [n > 0] entries: [n - 1] when the first
    draw is below [self_play_prob], else [randint(0, n - 1)] on the
    generator after that draw; in both cases an index of the pool. *)
Lemma sample_id_spec self :
  let n := Z.of_nat (length (items (checkpoints self))) in
  let u := (random (rnd self)).1 in
  let g1 := (random (rnd self)).2 in
  (0 < n)%Z ->
  exists k g, sample_id self = Ok (k, g) /\ (0 <= k < n)%Z /\
    (Qlt u (self_play_prob self) -> k = (n - 1)%Z /\ g = g1) /\
    (Qle (self_play_prob self) u -> (k, g) = randbelow g1 n).
Proof.
  intros n u g1 Hn. unfold sample_id. subst u g1.
  destruct (random (rnd self)) as [u g1]. simpl. fold n.
  destruct (Qlt_le_dec u (self_play_prob self)) as [Hlt|Hle].
  - exists (n - 1)%Z, g1. split; [done|]. split; [lia|]. split; [done|].
    intros Hle. exfalso. by apply (Qlt_not_le _ _ Hlt).
  - unfold randint. destruct (n - 1 <? 0)%Z eqn:E; [apply Z.ltb_lt in E; lia|].
    replace (n - 1 - 0 + 1)%Z with n by lia.
    pose proof (randbelow_bound g1 n Hn) as Hb.
    destruct (randbelow g1 n) as [r g2]. simpl in *.
    exists r, g2. split; [done|]. split; [lia|]. split; [|done].
    intros Hlt. exfalso. by apply (Qlt_not_le _ _ Hlt).
Qed.

Lemma deque_getitem_ok {A : Type} (d : deque A) (k : Z) :
  (0 <= k < Z.of_nat (length (items d)))%Z ->
  exists a, deque_getitem d k = Ok a /\ items d !! Z.to_nat k = Some a.
Proof.
  intros Hk. unfold deque_getitem. rewrite norm_index_nonneg by done. simpl.
  destruct (getitem_lt (items d) (Z.to_nat k)) as (a & Ha & Ha'); [lia|]. eauto.
Qed.

(** In memory mode the entry of the pool at the drawn index is returned
    as it is stored. *)
Lemma sample_opponent_memory self fs :
  save_checkpoints self = false ->
  items (checkpoints self) <> [] ->
  length (items (save_steps self)) = length (items (checkpoints self)) ->
  exists k g e t,
    sample_id self = Ok (k, g) /\
    (0 <= k < Z.of_nat (length (items (checkpoints self))))%Z /\
    items (checkpoints self) !! Z.to_nat k = Some e /\
    items (save_steps self) !! Z.to_nat k = Some t /\
    sample_opponent self fs = Ok (e, with_rnd self g, (k, t)).
Proof.
  intros Hmem Hne Hlen.
  destruct (sample_id_spec self) as (k & g & Hid & Hk & _).
  { destruct (items (checkpoints self)); [done|simpl; lia]. }
  destruct (deque_getitem_ok (save_steps self) k) as (t & Ht & Ht'); [lia|].
  destruct (deque_getitem_ok (checkpoints self) k) as (e & He & He'); [lia|].
  exists k, g, e, t. repeat (split; [done|]).
  unfold sample_opponent. rewrite Hid. simpl. rewrite Ht. simpl.
  rewrite Hmem, He. done.
Qed.
End SampleFacts.

(** C4 (the code against the claim).  In disk mode, on a pool that is not
    empty, [sample_opponent] draws its index and then raises AttributeError
    at [self.checkpoints.get], a method that deques do not have: nothing is
    loaded and no agent is returned. *)
Theorem sample_opponent_disk_mode_raises (Agent G : Type) `{RandomGenLaws G}
    (self : SelfPlayAssistant Agent G) (fs : gmap string Agent) :
  save_checkpoints self = true ->
  items (checkpoints self) <> [] ->
  length (items (save_steps self)) = length (items (checkpoints self)) ->
  sample_opponent self fs = Raise (AttributeError "collections.deque" "get").
Proof.
  intros Hdisk Hne Hlen.
  destruct (sample_id_spec self) as (k & g & Hid & Hk & _).
  { destruct (items (checkpoints self)); [done|simpl; lia]. }
  destruct (deque_getitem_ok (save_steps self) k) as (t & Ht & _); [lia|].
  unfold sample_opponent. rewrite Hid. simpl. rewrite Ht. simpl.
  rewrite Hdisk. reflexivity.
Qed.

#[export] Instance lcg_laws : RandomGenLaws Z.
Proof.
  constructor. intros g n Hn. simpl. apply Z.mod_pos_bound. lia.
Qed.

Example disk_manager_reached :
  (let* (self0, _) := init 5000 10 1000 (7 # 10) true "ckpt/" (Some 1%Z) 42%Z in
   Ok (add_checkpoint self0 ∅ 7 (PyInt 0)).1) = Ok disk_manager.
Proof. vm_compute. reflexivity. Qed.

Lemma sample_opponent_disk_mode_raises_witness :
  sample_opponent disk_manager ∅ = Raise (AttributeError "collections.deque" "get").
Proof.
  apply (sample_opponent_disk_mode_raises nat Z); [reflexivity | done | reflexivity].
Defined.

(** ** Seeding the assistant *)

Section SeedFacts.
Context {Agent G : Type} `{RandomGen G}.

(** A seed that is not zero: the global generator is not touched and the
    assistant does not depend on it. *)
Lemma init_seeded (cf window_ rf : Z) (p : Q) (save : bool) (dir : string)
    (z : Z) (g : G) :
  z <> 0%Z -> (0 <= window_)%Z ->
  init (Agent := Agent) cf window_ rf p save dir (Some z) g =
    Ok ({| checkpoint_freq := cf; window := window_; replace_freq := rf;
           self_play_prob := p;
           checkpoints := Deque [] (Z.to_nat window_);
           save_steps := Deque [] (Z.to_nat window_);
           save_checkpoints := save; checkpoint_dir := dir;
           seed := z; rnd := Random z |}, g).
Proof.
  intros Hz Hw. unfold init, deque_new.
  destruct (window_ <? 0)%Z eqn:E; [apply Z.ltb_lt in E; lia|]. simpl.
  destruct (z =? 0)%Z eqn:Ez; [apply Z.eqb_eq in Ez; lia|]. done.
Qed.

(** The seed 0 is taken for no seed. *)
Lemma init_seed_zero (cf window_ rf : Z) (p : Q) (save : bool) (dir : string) (g : G) :
  init (Agent := Agent) cf window_ rf p save dir (Some 0%Z) g =
  init cf window_ rf p save dir None g.
Proof. done. Qed.
End SeedFacts.

(** C10. With a seed that is not zero, two assistants constructed under
    any two states of the global generator are seeded alike and draw the
    same indices from pools of the same contents.  The seed 0 is taken for
    no seed: the generator of the assistant is seeded with a draw of the
    global generator, and two assistants constructed one after the other
    with seed 0 can draw different indices from pools of the same contents
    (shown with the generator [lcg]). *)
Theorem seeded_sampling_reproducible :
  (forall (Agent G : Type) `{RandomGen G} (cf window_ rf : Z) (p : Q) (save : bool)
          (dir : string) (z : Z) (g1 g2 : G),
     z <> 0%Z -> (0 <= window_)%Z ->
     exists s1 s2 : SelfPlayAssistant Agent G,
       init cf window_ rf p save dir (Some z) g1 = Ok (s1, g1) /\
       init cf window_ rf p save dir (Some z) g2 = Ok (s2, g2) /\
       rnd s1 = Random z /\ rnd s2 = Random z /\
       forall (calls : list (Agent * step_arg)) (fs : gmap string Agent) (n : nat),
         sample_ids (add_checkpoints s1 fs calls).1 n
         = sample_ids (add_checkpoints s2 fs calls).1 n) /\
  (forall (Agent G : Type) `{RandomGen G} (cf window_ rf : Z) (p : Q) (save : bool)
          (dir : string) (g : G),
     (0 <= window_)%Z ->
     init (Agent := Agent) cf window_ rf p save dir (Some 0%Z) g
       = init cf window_ rf p save dir None g /\
     exists (s : SelfPlayAssistant Agent G) (g' : G),
       init cf window_ rf p save dir (Some 0%Z) g = Ok (s, g') /\
       g' = (randbelow g 100001).2 /\
       seed s = (randbelow g 100001).1 /\ rnd s = Random (seed s)) /\
  (exists (s1 s2 : SelfPlayAssistant nat Z) (g1 g2 : Z),
     init 5000 10 1000 (7 # 10) false "ckpt/" (Some 0%Z) 0%Z = Ok (s1, g1) /\
     init 5000 10 1000 (7 # 10) false "ckpt/" (Some 0%Z) g1 = Ok (s2, g2) /\
     sample_ids (add_checkpoints s1 ∅ three_calls).1 4
     <> sample_ids (add_checkpoints s2 ∅ three_calls).1 4).
Proof.
  split; [|split].
  - intros Agent G HG cf window_ rf p save dir z g1 g2 Hz Hw.
    eexists _, _. rewrite !init_seeded by done.
    split; [reflexivity|]. split; [reflexivity|]. done.
  - intros Agent G HG cf window_ rf p save dir g Hw. split; [done|].
    unfold init, deque_new.
    destruct (window_ <? 0)%Z eqn:E; [apply Z.ltb_lt in E; lia|]. simpl.
    unfold randint. simpl. change (100000 - 0 + 1)%Z with 100001%Z.
    destruct (randbelow g 100001) as [r g']. simpl.
    eexists _, _. split; [reflexivity|]. done.
  - eexists _, _, _, _. split; [vm_compute; reflexivity|].
    split; [vm_compute; reflexivity|].
    vm_compute. discriminate.
Qed.

Lemma seeded_sampling_reproducible_witness :
  exists s1 s2 : SelfPlayAssistant nat Z,
    init 5000 10 1000 (7 # 10) false "ckpt/" (Some 1%Z) 3%Z = Ok (s1, 3%Z) /\
    init 5000 10 1000 (7 # 10) false "ckpt/" (Some 1%Z) 4%Z = Ok (s2, 4%Z) /\
    rnd s1 = Random 1%Z /\ rnd s2 = Random 1%Z /\
    forall (calls : list (nat * step_arg)) (fs : gmap string nat) (n : nat),
      sample_ids (add_checkpoints s1 fs calls).1 n
      = sample_ids (add_checkpoints s2 fs calls).1 n.
Proof.
  apply (proj1 seeded_sampling_reproducible nat Z lcg); [done | lia].
Defined.

(** ** Generalized advantage estimation *)

Section GAEFacts.
Context {F : Type} `{Arith F}.
Implicit Types (buf adv : buffer F) (row last : list F).

Lemma shape_lookup buf T N t :
  shape buf T N -> t < T -> exists row, buf !! t = Some row /\ length row = N.
Proof.
  intros [HT HN] Ht.
  destruct (lookup_lt_is_Some_2 buf t) as [row Hrow]; [lia|].
  exists row. split; [done|].
  rewrite Forall_forall in HN. apply HN. by eapply list_elem_of_lookup_2.
Qed.

Lemma cell_row buf t i row : buf !! t = Some row -> cell buf t i = row !! i.
Proof. intros Hrow. unfold cell. by rewrite Hrow. Qed.

Lemma shape_insert buf T N t row :
  shape buf T N -> length row = N -> shape (<[t := row]> buf) T N.
Proof.
  intros [HT HN] Hrow. split; [by rewrite length_insert|].
  destruct (decide (t < length buf)).
  - by apply Forall_insert.
  - rewrite list_insert_ge by lia. done.
Qed.

(** One pass of the loop: the new row of [advantages] follows the
    recurrence entry by entry. *)
Lemma gae_body_spec gamma gae_lambda rewards_ dones_ values steps_ T N t adv last :
  shape rewards_ T N -> shape dones_ T N -> shape values T N -> shape adv T N ->
  length steps_ = N -> length last = N -> t + 1 < T ->
  exists row,
    gae_body gamma gae_lambda rewards_ dones_ values steps_ t adv last
      = Ok (<[t := row]> adv, row) /\
    length row = N /\
    forall i r d1 v1 v0 s l,
      cell rewards_ t i = Some r -> cell dones_ (t + 1) i = Some d1 ->
      cell values (t + 1) i = Some v1 -> cell values t i = Some v0 ->
      steps_ !! i = Some s -> last !! i = Some l ->
      row !! i = Some (gae_cell gamma gae_lambda r d1 v1 v0 s t l).
Proof.
  intros Hr Hd Hv Ha Hs Hl Ht.
  destruct (shape_lookup _ _ _ (t + 1) Hd) as (d & Ed & Ld); [lia|].
  destruct (shape_lookup _ _ _ (t + 1) Hv) as (v1 & Ev1 & Lv1); [lia|].
  destruct (shape_lookup _ _ _ t Hr) as (r & Er & Lr); [lia|].
  destruct (shape_lookup _ _ _ t Hv) as (v & Ev & Lv); [lia|].
  unfold gae_body.
  rewrite (proj2 (getitem_Ok _ _ _) Ed). simpl.
  rewrite (proj2 (getitem_Ok _ _ _) Ev1). simpl.
  rewrite (proj2 (getitem_Ok _ _ _) Er). simpl.
  rewrite (proj2 (getitem_Ok _ _ _) Ev). simpl.
  unfold setrow. destruct Ha as [HaT HaN].
  destruct (decide (t < length adv)) as [_|]; [|lia]. simpl.
  eexists. split; [reflexivity|]. split.
  - unfold vadd, vsub, vmul, smul, gt_mask.
    repeat (rewrite ?length_zip_with, ?length_fmap).
    rewrite Lr, Lv1, Hs, Ld, Lv, Hl. rewrite !Nat.min_id. done.
  - intros i r0 d1 v1' v0 s l Hr0 Hd1 Hv1 Hv0 Hs0 Hl0.
    rewrite (cell_row _ _ _ _ Er) in Hr0. rewrite (cell_row _ _ _ _ Ed) in Hd1.
    rewrite (cell_row _ _ _ _ Ev1) in Hv1. rewrite (cell_row _ _ _ _ Ev) in Hv0.
    unfold vadd, vsub, vmul, smul, gt_mask, gae_cell.
    rewrite !lookup_zip_with, !list_lookup_fmap, !lookup_zip_with, !list_lookup_fmap.
    rewrite Hr0, Hd1, Hv1, Hv0, Hs0, Hl0. done.
Qed.

(** The loop over [m - 1, ..., 0] from [advantages = adv] and
    [lastgaelam = last]. *)
Lemma gae_loop_spec gamma gae_lambda rewards_ dones_ values steps_ T N :
  shape rewards_ T N -> shape dones_ T N -> shape values T N -> length steps_ = N ->
  forall m adv last,
    shape adv T N -> length last = N -> m <= T - 1 ->
    exists adv' last',
      gae_loop gamma gae_lambda rewards_ dones_ values steps_ (reverse (seq 0 m)) adv last
        = Ok (adv', last') /\
      shape adv' T N /\
      (forall t, m <= t -> adv' !! t = adv !! t) /\
      (forall t i r d1 v1 v0 s l,
         t < m ->
         cell rewards_ t i = Some r -> cell dones_ (t + 1) i = Some d1 ->
         cell values (t + 1) i = Some v1 -> cell values t i = Some v0 ->
         steps_ !! i = Some s ->
         (if decide (S t = m) then last !! i else cell adv' (S t) i) = Some l ->
         cell adv' t i = Some (gae_cell gamma gae_lambda r d1 v1 v0 s t l)).
Proof.
  intros Hr Hd Hv Hs.
  induction m as [|m IH]; intros adv last Ha Hl Hm.
  - exists adv, last. simpl. split; [done|]. split; [done|]. split; [done|].
    intros; lia.
  - rewrite seq_S, reverse_app. simpl.
    destruct (gae_body_spec gamma gae_lambda rewards_ dones_ values steps_ T N m adv last)
      as (row & Hbody & Hrow & Hcell); [done..|lia|].
    rewrite Hbody. simpl.
    destruct (IH (<[m := row]> adv) row) as (adv' & last' & Hloop & Ha' & Hkeep & Hrec);
      [by apply shape_insert | done | lia |].
    exists adv', last'. split; [done|]. split; [done|]. split.
    + intros t Ht. rewrite Hkeep by lia. apply list_lookup_insert_ne. lia.
    + intros t i r d1 v1 v0 s l Ht Hr0 Hd1 Hv1 Hv0 Hs0 Hl0.
      assert (adv' !! m = Some row) as Hm'.
      { rewrite Hkeep by lia. apply list_lookup_insert_eq. destruct Ha. lia. }
      destruct (decide (t = m)) as [->|Hne].
      * destruct (decide (S m = S m)) as [_|]; [|done].
        rewrite (cell_row _ _ _ _ Hm'). by eapply Hcell.
      * destruct (decide (S t = S m)) as [|_]; [lia|].
        apply Hrec; try done; [lia|].
        destruct (decide (S t = m)) as [<-|]; [|done].
        by rewrite <- (cell_row _ _ _ _ Hm').
Qed.

Lemma zeros_like_shape buf T N :
  shape buf T N -> shape (map (map (fun _ => f0)) buf) T N.
Proof.
  intros [HT HN]. split; [by rewrite length_map|].
  apply Forall_forall. intros row Hrow.
  apply list_elem_of_fmap in Hrow as (row' & -> & Hrow').
  rewrite length_map. rewrite Forall_forall in HN. by apply HN.
Qed.

Lemma zeros_like_cell buf T N t i :
  shape buf T N -> t < T -> i < N -> cell (map (map (fun _ => f0)) buf) t i = Some f0.
Proof.
  intros Hb Ht Hi. destruct (shape_lookup _ _ _ t Hb Ht) as (row & Hrow & Hlen).
  unfold cell. change (map (map (fun _ => f0)) buf) with (map (fun _ : F => f0) <$> buf).
  rewrite list_lookup_fmap, Hrow. simpl.
  change (map (fun _ : F => f0) row) with ((fun _ : F => f0) <$> row).
  rewrite list_lookup_fmap.
  destruct (lookup_lt_is_Some_2 row i) as [x ->]; [lia|]. done.
Qed.

Lemma returns_shape adv values T N :
  shape adv T N -> shape values T N -> shape (zip_with vadd adv values) T N.
Proof.
  intros Ha Hv. split.
  - rewrite length_zip_with. destruct Ha, Hv. lia.
  - apply Forall_forall. intros row Hrow.
    apply list_elem_of_lookup in Hrow as [t Ht].
    rewrite lookup_zip_with in Ht.
    destruct (adv !! t) as [a|] eqn:Ea; [|done].
    destruct (values !! t) as [v|] eqn:Ev; [|done].
    simpl in Ht. injection Ht as <-.
    destruct Ha as [_ Ha], Hv as [_ Hv]. rewrite Forall_forall in Ha, Hv.
    unfold vadd. rewrite length_zip_with.
    rewrite (Ha a), (Hv v) by (by eapply list_elem_of_lookup_2). lia.
Qed.

Lemma returns_cell adv values t i a v :
  cell adv t i = Some a -> cell values t i = Some v ->
  cell (zip_with vadd adv values) t i = Some (fadd a v).
Proof.
  unfold cell. rewrite lookup_zip_with.
  destruct (adv !! t) as [ra|]; [|done]. destruct (values !! t) as [rv|]; [|done].
  simpl. intros Ha Hv. unfold vadd. by rewrite lookup_zip_with, Ha, Hv.
Qed.
End GAEFacts.

(** C5. The advantage pass on buffers of [T = num_steps] rows and [N]
    environments: the loop visits exactly the indices [T - 3, ..., 0]; the
    factor of [value[t + 1]] is the indicator of [steps > t], zero for an
    environment filled up to [t] at most; the pass succeeds, the last two
    rows of [advantages] keep their zeros, every visited cell follows the
    recurrence with [lastgaelam] the advantage of row [t + 1], and
    [returns] is [advantages + values] cell by cell. *)
Theorem gae_recurrence (F : Type) `{Arith F} (T N : nat) (gamma gae_lambda : F)
    (rewards_ dones_ values : buffer F) (steps_ : list Z) :
  shape rewards_ T N -> shape dones_ T N -> shape values T N -> length steps_ = N ->
  gae_range (Z.of_nat T) = reverse (seq 0 (T - 2)) /\
  (forall t, t ∈ gae_range (Z.of_nat T) <-> t + 3 <= T) /\
  (forall (s : Z) (t : nat),
     float_of_bool (F := F) (Z.of_nat t <? s)%Z
       = if decide (Z.of_nat t < s)%Z then f1 else f0) /\
  exists advantages returns,
    gae (Z.of_nat T) gamma gae_lambda rewards_ dones_ values steps_
      = Ok (advantages, returns) /\
    shape advantages T N /\ shape returns T N /\
    (forall t i, T - 2 <= t < T -> i < N -> cell advantages t i = Some f0) /\
    (forall t i r d1 v1 v0 s,
       t + 3 <= T ->
       cell rewards_ t i = Some r -> cell dones_ (t + 1) i = Some d1 ->
       cell values (t + 1) i = Some v1 -> cell values t i = Some v0 ->
       steps_ !! i = Some s ->
       exists last,
         cell advantages (t + 1) i = Some last /\
         cell advantages t i = Some (gae_cell gamma gae_lambda r d1 v1 v0 s t last)) /\
    (forall t i a v,
       cell advantages t i = Some a -> cell values t i = Some v ->
       cell returns t i = Some (fadd a v)).
Proof.
  intros Hr Hd Hv Hs.
  assert (gae_range (Z.of_nat T) = reverse (seq 0 (T - 2))) as Hrange.
  { unfold gae_range. do 2 f_equal. lia. }
  split; [done|]. split; [|split].
  - intros t. rewrite Hrange, elem_of_reverse, elem_of_seq. lia.
  - intros s t. destruct (decide (Z.of_nat t < s)%Z) as [Hlt|Hge].
    + by rewrite (proj2 (Z.ltb_lt _ _) Hlt).
    + by rewrite (proj2 (Z.ltb_ge _ _)) by lia.
  - unfold gae. rewrite Hrange.
    destruct (gae_loop_spec gamma gae_lambda rewards_ dones_ values steps_ T N
                Hr Hd Hv Hs (T - 2) (map (map (fun _ => f0)) rewards_)
                (replicate (length steps_) f0))
      as (adv & last' & Hloop & Ha & Hkeep & Hrec);
      [by apply zeros_like_shape | by rewrite length_replicate | lia |].
    rewrite Hloop. simpl.
    eexists _, _. split; [reflexivity|]. split; [done|].
    split; [by apply returns_shape|].
    assert (forall t i, T - 2 <= t < T -> i < N -> cell adv t i = Some f0) as Hzero.
    { intros t i Ht Hi.
      rewrite <- (zeros_like_cell rewards_ T N t i) by (done || lia).
      unfold cell. by rewrite Hkeep by lia. }
    split; [done|]. split.
    + intros t i r d1 v1 v0 s Ht Hr0 Hd1 Hv1 Hv0 Hs0.
      assert (i < N) as Hi by (apply lookup_lt_Some in Hs0; lia).
      destruct (cell_Some_shape adv T N (S t) i Ha) as [last Hlast]; [lia | done |].
      exists last. replace (t + 1) with (S t) by lia. split; [done|].
      apply Hrec; try done; [lia|].
      destruct (decide (S t = T - 2)) as [Heq|]; [|done].
      rewrite Hzero in Hlast by lia. injection Hlast as <-.
      apply lookup_replicate_2. lia.
    + intros t i a v. apply returns_cell.
Qed.

Lemma gae_recurrence_witness :
  gae_range (Z.of_nat 3) = reverse (seq 0 (3 - 2)) /\
  (forall t, t ∈ gae_range (Z.of_nat 3) <-> t + 3 <= 3) /\
  (forall (s : Z) (t : nat),
     float_of_bool (F := Z) (Z.of_nat t <? s)%Z
       = if decide (Z.of_nat t < s)%Z then f1 else f0) /\
  exists advantages returns,
    gae (Z.of_nat 3) 2%Z 3%Z [[1]; [0]; [0]]%Z [[0]; [0]; [1]]%Z [[5]; [5]; [5]]%Z [1%Z]
      = Ok (advantages, returns) /\
    shape advantages 3 1 /\ shape returns 3 1 /\
    (forall t i, 3 - 2 <= t < 3 -> i < 1 -> cell advantages t i = Some f0) /\
    (forall t i r d1 v1 v0 s,
       t + 3 <= 3 ->
       cell [[1]; [0]; [0]]%Z t i = Some r -> cell [[0]; [0]; [1]]%Z (t + 1) i = Some d1 ->
       cell [[5]; [5]; [5]]%Z (t + 1) i = Some v1 -> cell [[5]; [5]; [5]]%Z t i = Some v0 ->
       [1%Z] !! i = Some s ->
       exists last,
         cell advantages (t + 1) i = Some last /\
         cell advantages t i = Some (gae_cell 2%Z 3%Z r d1 v1 v0 s t last)) /\
    (forall t i a v,
       cell advantages t i = Some a -> cell [[5]; [5]; [5]]%Z t i = Some v ->
       cell returns t i = Some (fadd a v)).
Proof.
  apply (gae_recurrence Z 3 1 2%Z 3%Z);
    first [reflexivity | split; [reflexivity | repeat constructor]].
Defined.

(** ** The evaluation cadence *)

(** C3 (the code against the claim).  The test of the evaluation cadence
    is not the test of the checkpoint and replace cadences: it compares
    with [<=], and with the [train_ids] read after the environment step.
    In the first sub-step of a run where the opponent acts in both
    environments, no learning decision is taken and [global_step] stays 0,
    yet the evaluation runs while the replacement, of the same period, does
    not; and in a sub-step that takes [global_step] from 9999 to 10001 the
    replacement fires and the evaluation does not. *)
Theorem eval_cadence_not_edge_trigger :
  (exists st' tr,
     substep 50000 10000 10000 start_state start_step = Ok (st', tr) /\
     tensor_sum (train_ids (tn start_state)) = 0%Z /\
     global_step st' = 0%Z /\
     cadence_due (global_step st') 10000 (train_ids (tn start_state)) = Ok false /\
     opponent_replaced tr = false /\
     evaluated tr = true) /\
  (exists st' tr,
     substep 50000 10000 10000 crossing_state crossing_step = Ok (st', tr) /\
     tensor_sum (train_ids (tn crossing_state)) = 2%Z /\
     global_step st' = 10001%Z /\
     cadence_due (global_step st') 10000 (train_ids (tn crossing_state)) = Ok true /\
     opponent_replaced tr = true /\
     evaluated tr = false).
Proof.
  split; eexists _, _; (split; [vm_compute; reflexivity|]); repeat split.
Qed.

(** ** Importing [make_sp_env] *)

Lemma first_missing_Some (has : string -> bool) (names : list string) (n : string) :
  n ∈ names -> has n = false -> is_Some (first_missing has names).
Proof.
  intros Hn Hhas. unfold first_missing.
  destruct (list_find (fun n => has n = false) names) as [[i x]|] eqn:E; [by eexists|].
  apply list_find_None in E. rewrite Forall_forall in E. by destruct (E n Hn).
Qed.

Lemma exec_stmt_raise (ext : externals) (ns : list string) (s : stmt) (e : exn) :
  exec_stmt ext ns s = Raise e -> import_error e = true.
Proof.
  destruct s as [m b|m names|n|]; simpl; try discriminate.
  - destruct (ext m); [discriminate|]. by intros [= <-].
  - destruct (ext m) as [has|]; [|by intros [= <-]].
    destruct (first_missing has names); [|discriminate]. by intros [= <-].
Qed.

Lemma exec_stmt_ok (ext : externals) (ns ns' : list string) (s : stmt) :
  exec_stmt ext ns s = Ok ns' -> ns' = namespace_after ns [s].
Proof.
  destruct s as [m b|m names|n|]; simpl.
  - destruct (ext m); [|discriminate]. by intros [= <-].
  - destruct (ext m) as [has|]; [|discriminate].
    destruct (first_missing has names); [discriminate|]. by intros [= <-].
  - by intros [= <-].
  - by intros [= <-].
Qed.

Lemma exec_module_raise (ext : externals) (body : list stmt) : forall ns e,
  exec_module ext ns body = Raise e -> import_error e = true.
Proof.
  induction body as [|s body IH]; intros ns e; simpl; [discriminate|].
  destruct (exec_stmt ext ns s) as [ns'|e'] eqn:E; simpl.
  - apply IH.
  - intros [= <-]. by eapply exec_stmt_raise.
Qed.

Lemma exec_module_ok (ext : externals) (body : list stmt) : forall ns ns',
  exec_module ext ns body = Ok ns' -> ns' = namespace_after ns body.
Proof.
  induction body as [|s body IH]; intros ns ns'; simpl; [by intros [= <-]|].
  destruct (exec_stmt ext ns s) as [ns1|e'] eqn:E; simpl; [|discriminate].
  intros Hrest. apply exec_stmt_ok in E as ->. by apply IH.
Qed.

(** Whatever is installed, importing a name that the supplied module does
    not bind raises an exception of the import system. *)
Lemma import_from_common_raises (ext : externals) (ns : list string) (names : list string)
    (n : string) :
  n ∈ names -> bool_decide (n ∈ namespace_after [] common_py) = false ->
  exists e, exec_script_stmt ext ns (FromImport "pytag.utils.common" names) = Raise e /\
            import_error e = true.
Proof.
  intros Hn Hmiss. unfold exec_script_stmt.
  destruct (decide ("pytag.utils.common" = "pytag.utils.common")) as [_|]; [|done].
  destruct (exec_module ext [] common_py) as [common_ns|e] eqn:E; cbn [bind].
  - apply exec_module_ok in E as ->.
    destruct (first_missing_Some
                (fun n => bool_decide (n ∈ namespace_after [] common_py)) names n Hn Hmiss)
      as [x ->]. eauto.
  - exists e. split; [done|]. by eapply exec_module_raise.
Qed.

Lemma exec_script_stmt_raise (ext : externals) (ns : list string) (s : stmt) (e : exn) :
  exec_script_stmt ext ns s = Raise e -> import_error e = true.
Proof.
  destruct s as [m b|m names|n|]; try apply exec_stmt_raise.
  unfold exec_script_stmt.
  destruct (decide (m = "pytag.utils.common")); [|apply exec_stmt_raise].
  destruct (exec_module ext [] common_py) as [common_ns|e'] eqn:E; cbn [bind].
  - destruct (first_missing _ names); [|discriminate]. by intros [= <-].
  - intros [= <-]. by eapply exec_module_raise.
Qed.

(** A script that, before its main block, imports from the supplied module
    a name that the module does not bind fails at that line at the
    latest, with an exception of the import system. *)
Lemma exec_script_fails (ext : externals) (L : nat) (names : list string) (n : string)
    (post : list (nat * stmt)) :
  n ∈ names -> bool_decide (n ∈ namespace_after [] common_py) = false ->
  forall (pre : list (nat * stmt)) (ns : list string),
    Forall (fun ls => ls.1 <= L /\ ls.2 <> Main) pre ->
    exists line e,
      exec_script ext ns (pre ++ (L, FromImport "pytag.utils.common" names) :: post)
        = Failed line e /\
      line <= L /\ import_error e = true.
Proof.
  intros Hn Hmiss. induction pre as [|[l s] pre IH]; intros ns Hpre.
  - destruct (import_from_common_raises ext ns names n Hn Hmiss) as (e & He & Hie).
    exists L, e. cbn [app exec_script]. rewrite He. done.
  - apply Forall_cons in Hpre as [[Hl Hs] Hpre]. simpl in Hl, Hs.
    cbn [app exec_script].
    destruct (exec_script_stmt ext ns s) as [ns'|e] eqn:E.
    + destruct (IH ns' Hpre) as (line & e & He & Hline & Hie).
      exists line, e. by destruct s.
    + exists l, e. split; [by destruct s|]. split; [done|].
      by eapply exec_script_stmt_raise.
Qed.

(** C1. The supplied module defines [make_ma_env], [make_env],
    [get_agent_list], [get_agent_class] and [layer_init] and binds no
    [make_sp_env]; so whatever else is installed, the script fails while its
    imports are executed, at line 18 at the latest and before the main block
    (line 270) that parses the arguments, with an exception of the import
    system; and when every other import succeeds, the failure is the
    ImportError of [make_sp_env] at line 18. *)
Theorem script_fails_at_import :
  defined_names common_py
    = ["make_ma_env"; "make_env"; "get_agent_list"; "get_agent_class"; "layer_init"] /\
  bool_decide ("make_sp_env" ∈ namespace_after [] common_py) = false /\
  (forall ext : externals,
     exists line e, run_script ext = Failed line e /\ line <= 18 /\ line < 270 /\
                    import_error e = true) /\
  run_script all_installed = Failed 18 (ImportError "pytag.utils.common" "make_sp_env").
Proof.
  split; [reflexivity|]. split; [by vm_compute|]. split; [|by vm_compute].
  intros ext. unfold run_script, ppo_selfplay_py.
  match goal with
  | |- context [exec_script ext [] (?a :: ?b :: ?c :: ?d :: ?e :: ?f :: ?g :: ?h :: ?i
                                     :: ?j :: ?k :: ?l :: ?m :: ?x :: ?post)] =>
      change (a :: b :: c :: d :: e :: f :: g :: h :: i :: j :: k :: l :: m :: x :: post)
        with ([a; b; c; d; e; f; g; h; i; j; k; l; m] ++ x :: post)
  end.
  destruct (exec_script_fails ext 18 ["make_env"; "make_sp_env"] "make_sp_env"
              (drop 14 ppo_selfplay_py))
    with (pre := take 13 ppo_selfplay_py) (ns := @nil string)
    as (line & e & He & Hline & Hie).
  - set_solver.
  - by vm_compute.
  - simpl. repeat constructor; simpl; try lia; discriminate.
  - exists line, e. split; [exact He|]. split; [done|]. split; [lia|done].
Qed.

(** ** The agent registry and the environment factories *)

(** X1. [get_agent_class] knows exactly the names of [get_agent_list]: it
    returns a class for each of them, a different one for different names,
    and [None] for every other name. *)
Theorem get_agent_class_registry :
  (forall name : string, is_Some (get_agent_class name) <-> name ∈ get_agent_list) /\
  (forall a b c : string,
     get_agent_class a = Some c -> get_agent_class b = Some c -> a = b).
Proof.
  split.
  - intros name. split.
    + unfold get_agent_class, get_agent_list.
      repeat case_decide; subst; intros [c Hc]; try discriminate; set_solver.
    + unfold get_agent_class, get_agent_list. intros Hin.
      repeat case_decide; try (by eexists). set_solver.
  - intros a b c. unfold get_agent_class.
    repeat case_decide; subst; intros [= <-]; try discriminate; congruence.
Qed.

Lemma get_agent_class_registry_witness :
  is_Some (get_agent_class "osla") /\ get_agent_class "human" = None.
Proof.
  split.
  - apply (proj1 get_agent_class_registry "osla"). set_solver.
  - reflexivity.
Defined.

Lemma append_opponents_replicate (agent_ids : list string) (opponent : string) (n : nat) :
  append_opponents agent_ids opponent n = agent_ids ++ replicate n opponent.
Proof.
  revert agent_ids. induction n as [|n IH]; intros agent_ids; simpl.
  - by rewrite app_nil_r.
  - rewrite IH, <- (assoc_L (++)). done.
Qed.

(** X2. The seats that [make_env] asks for: the learning agent and
    [n_players - 1] opponents (none when [n_players <= 1]), in that order
    unless the order is randomised, and then a permutation of them; so
    [n_players] seats for [n_players >= 1], and one seat has "python" when
    the opponent is not called so. *)
Theorem make_env_seats (shuffle : list string -> list string) (env_id : string) (seed_ : Z)
    (opponent : string) (n_players framestack : Z) (obs_type : string)
    (randomise_order : bool) :
  (forall l, shuffle l ≡ₚ l) ->
  let ids := req_agent_ids
               (make_env shuffle env_id seed_ opponent n_players framestack obs_type
                         randomise_order) in
  ids ≡ₚ "python" :: replicate (Z.to_nat (n_players - 1)) opponent /\
  (randomise_order = false ->
     ids = "python" :: replicate (Z.to_nat (n_players - 1)) opponent) /\
  ((1 <= n_players)%Z -> Z.of_nat (length ids) = n_players) /\
  (opponent <> "python" -> length (filter (fun a => a = "python") ids) = 1).
Proof.
  intros Hperm ids.
  assert (ids ≡ₚ "python" :: replicate (Z.to_nat (n_players - 1)) opponent) as Hids.
  { subst ids. unfold make_env. simpl. rewrite append_opponents_replicate. simpl.
    destruct randomise_order; [apply Hperm | done]. }
  split; [done|]. split; [|split].
  - intros ->. subst ids. unfold make_env. simpl.
    by rewrite append_opponents_replicate.
  - intros Hn. rewrite Hids. simpl. rewrite length_replicate. lia.
  - intros Hne. rewrite Hids. rewrite filter_cons_True by done. simpl. f_equal.
    generalize (Z.to_nat (n_players - 1)). clear -Hne.
    induction n as [|k IH]; [done|]. simpl.
    by rewrite filter_cons_False.
Qed.

Lemma make_env_seats_witness :
  let ids := req_agent_ids
               (make_env reverse "TAG/Diamant-v0" 1 "random" 3 1 "vector" true) in
  ids ≡ₚ "python" :: replicate (Z.to_nat (3 - 1)) "random" /\
  (true = false -> ids = "python" :: replicate (Z.to_nat (3 - 1)) "random") /\
  ((1 <= 3)%Z -> Z.of_nat (length ids) = 3%Z) /\
  ("random" <> "python" -> length (filter (fun a => a = "python") ids) = 1).
Proof.
  apply (make_env_seats reverse). intros l. apply reverse_Permutation.
Defined.

(** X3. The seats that [make_ma_env] asks for: [n_players] times the
    learning agent, then [n_players - 1] opponents, whatever
    [randomise_order] is; so [2 * n_players - 1] seats for [n_players >= 1],
    which are more than [n_players] from two players on. *)
Theorem make_ma_env_seats (env_id : string) (seed_ : Z) (opponent : string)
    (n_players framestack : Z) (obs_type : string) (randomise_order : bool) :
  let ids := req_agent_ids
               (make_ma_env env_id seed_ opponent n_players framestack obs_type
                            randomise_order) in
  ids = replicate (Z.to_nat n_players) "python"
        ++ replicate (Z.to_nat (n_players - 1)) opponent /\
  ((1 <= n_players)%Z -> Z.of_nat (length ids) = (2 * n_players - 1)%Z) /\
  ((n_players <= 0)%Z -> ids = []).
Proof.
  intros ids. subst ids. unfold make_ma_env. simpl.
  rewrite append_opponents_replicate. split; [done|]. split.
  - intros Hn. rewrite length_app, !length_replicate. lia.
  - intros Hn. replace (Z.to_nat n_players) with 0 by lia.
    by replace (Z.to_nat (n_players - 1)) with 0 by lia.
Qed.

Lemma make_ma_env_seats_witness :
  let ids := req_agent_ids (make_ma_env "TAG/Diamant-v0" 1 "random" 2 1 "vector" true) in
  ids = replicate (Z.to_nat 2) "python" ++ replicate (Z.to_nat (2 - 1)) "random" /\
  ((1 <= 2)%Z -> Z.of_nat (length ids) = (2 * 2 - 1)%Z) /\
  ((2 <= 0)%Z -> ids = []).
Proof. apply make_ma_env_seats. Defined.

(** ** Errors of the trajectory helpers *)

Section MergeErrors.
Context {A : Type}.
Implicit Types (results actions opp_actions : list A).

(** The loop fails as soon as one of the two sources runs out. *)
Lemma merge_loop_runs_out actions opp_actions : forall rest results i j,
  length results = length actions + length opp_actions ->
  i <= length actions -> j <= length opp_actions ->
  length actions < i + count_true rest \/
    length opp_actions < j + (length rest - count_true rest) ->
  merge_loop results actions opp_actions rest i j = Raise IndexError.
Proof.
  induction rest as [|b rest IH]; intros results i j Hres Hi Hj Hout.
  - simpl in Hout. rewrite count_true_nil in Hout. lia.
  - simpl in Hout. rewrite count_true_cons in Hout. simpl.
    pose proof (count_true_le_length rest) as Hle.
    destruct (truthy b) eqn:Hb.
    + destruct (decide (i < length actions)) as [Hlt|Hge].
      * destruct (getitem_lt actions i Hlt) as (a & Ha & _). rewrite Ha. simpl.
        unfold setitem. destruct (decide (i + j < length results)) as [_|]; [|lia].
        simpl. apply IH; [rewrite length_insert|..]; lia.
      * unfold getitem. rewrite lookup_ge_None_2 by lia. done.
    + destruct (decide (j < length opp_actions)) as [Hlt|Hge].
      * destruct (getitem_lt opp_actions j Hlt) as (a & Ha & _). rewrite Ha. simpl.
        unfold setitem. destruct (decide (i + j < length results)) as [_|]; [|lia].
        simpl. apply IH; [rewrite length_insert|..]; lia.
      * unfold getitem. rewrite lookup_ge_None_2 by lia. done.
Qed.
End MergeErrors.

(** X4. [merge_actions] succeeds exactly when [actions] has a row for every
    set entry of [train_ids] and [opp_actions] one for every other entry;
    otherwise it raises IndexError.  When it succeeds the result has
    [len(actions) + len(opp_actions)] rows, whatever the length of
    [train_ids]. *)
Theorem merge_actions_succeeds_iff (A : Type) (zero : A) (train_ids_ : list Z)
    (actions opp_actions : list A) :
  (count_true train_ids_ <= length actions /\
   length train_ids_ - count_true train_ids_ <= length opp_actions ->
   exists res, merge_actions zero train_ids_ actions opp_actions = Ok res /\
               length res = length actions + length opp_actions) /\
  (~ (count_true train_ids_ <= length actions /\
      length train_ids_ - count_true train_ids_ <= length opp_actions) ->
   merge_actions zero train_ids_ actions opp_actions = Raise IndexError).
Proof.
  pose proof (count_true_le_length train_ids_) as Hle.
  split.
  - intros [Ha Ho].
    destruct (merge_loop_spec actions opp_actions train_ids_
                (replicate (length actions + length opp_actions) zero) 0 0)
      as (res & Hloop & Hlen & _); [rewrite length_replicate; simpl; lia | simpl; lia..|].
    exists res. split; [done|]. by rewrite Hlen, length_replicate.
  - intros Hn. unfold merge_actions.
    apply merge_loop_runs_out; [by rewrite length_replicate | lia | lia |]. simpl. lia.
Qed.

Lemma merge_actions_succeeds_iff_witness :
  (exists res, merge_actions 0%Z [1; 0; 1]%Z [7; 8]%Z [9%Z] = Ok res /\
               length res = length [7; 8]%Z + length [9%Z]) /\
  merge_actions 0%Z [1; 1; 1]%Z [7; 8]%Z [9%Z] = Raise IndexError.
Proof.
  split.
  - apply (proj1 (merge_actions_succeeds_iff Z 0%Z [1; 0; 1]%Z [7; 8]%Z [9%Z])).
    vm_compute. lia.
  - apply (proj2 (merge_actions_succeeds_iff Z 0%Z [1; 1; 1]%Z [7; 8]%Z [9%Z])).
    vm_compute. lia.
Defined.

Section InsertErrors.
Context {V : Type}.
Implicit Types (buf : buffer V) (values : list V).

Lemma insert_loop_runs_out values cursors B N : forall rest buf i j,
  shape buf B N -> i + length rest <= N ->
  (forall p b, rest !! p = Some b -> truthy b = true ->
     exists k r, cursors !! (i + p) = Some k /\ norm_index B k = Ok r) ->
  j <= length values -> length values < j + count_true rest ->
  insert_loop buf cursors values rest i j = Raise IndexError.
Proof.
  induction rest as [|b rest IH]; intros buf i j Hsh Hlen Hcur Hj Hout.
  - rewrite count_true_nil in Hout. lia.
  - simpl in Hlen. rewrite count_true_cons in Hout. simpl.
    destruct (truthy b) eqn:Hb.
    + destruct (decide (j < length values)) as [Hlt|Hge].
      * destruct (getitem_lt values j Hlt) as (v & Hv & _). rewrite Hv. simpl.
        destruct (Hcur 0 b) as (k & r & Hk & Hr); [done..|].
        rewrite Nat.add_0_r in Hk. rewrite (proj2 (getitem_Ok _ _ _) Hk). simpl.
        destruct (set_cell_spec buf B N k r i v) as (buf1 & Hset & Hsh1 & _);
          [done | done | lia |].
        rewrite Hset. simpl. apply IH; [done | lia | | lia | lia].
        intros p b' Hp Hb'. replace (S i + p) with (i + S p) by lia.
        by apply (Hcur (S p) b').
      * unfold getitem. rewrite lookup_ge_None_2 by lia. done.
    + apply IH; [done | lia | | lia | lia].
      intros p b' Hp Hb'. replace (S i + p) with (i + S p) by lia.
      by apply (Hcur (S p) b').
Qed.
End InsertErrors.

(** X5. On a buffer of [B] rows and [N] columns with a filter and cursors
    of length [N] and cursors that index a row where the filter is set,
    [insert_at_indices] with [values] that are not empty but fewer than the
    set filter entries raises IndexError. *)
Theorem insert_at_indices_runs_out (V : Type) (buf : buffer V) (B N : nat)
    (cursors indices : list Z) (values : list V) :
  shape buf B N -> length indices = N -> length cursors = N ->
  (forall c b k, indices !! c = Some b -> truthy b = true -> cursors !! c = Some k ->
     (- Z.of_nat B <= k < Z.of_nat B)%Z) ->
  0 < length values < count_true indices ->
  insert_at_indices buf cursors indices values = Raise IndexError.
Proof.
  intros Hsh Hi Hc Hvalid [Hpos Hout]. unfold insert_at_indices.
  destruct (decide (0 < length values)) as [_|]; [|lia].
  apply (insert_loop_runs_out values cursors B N); [done | simpl; lia | | lia | simpl; lia].
  intros p b Hp Hb. simpl.
  destruct (lookup_lt_is_Some_2 cursors p) as [k Hk].
  { apply lookup_lt_Some in Hp. lia. }
  destruct (norm_index_valid B k) as [r Hr]; [by eapply Hvalid|]. eauto.
Qed.

Lemma insert_at_indices_runs_out_witness :
  insert_at_indices [[0; 0; 0]; [0; 0; 0]]%Z [0; 1; 1]%Z [1; 0; 1]%Z [7%Z]
  = Raise IndexError.
Proof.
  apply (insert_at_indices_runs_out Z _ 2 3).
  - split; [reflexivity | repeat constructor].
  - reflexivity.
  - reflexivity.
  - intros [|[|[|c]]] b k Hb _ Hk; simpl in *; try discriminate;
      injection Hk as <-; lia.
  - vm_compute. lia.
Defined.

(** X6. [split_obs] with a filter that has not one entry per row of the
    observations raises IndexError. *)
Theorem split_obs_filter_mismatch (O M : Type) (obs : tensor2 O) (mask : tensor2 M)
    (filter : list bool) :
  length (rows obs) <> length filter ->
  split_obs obs mask filter = Raise IndexError.
Proof.
  intros Hne. unfold split_obs, split_tensor, masked_select.
  destruct (decide (map length (rows obs) = map length (repeat_last filter (ncols obs))))
    as [Heq|]; [|done].
  apply (f_equal length) in Heq. unfold repeat_last in Heq.
  rewrite !length_map in Heq. done.
Qed.

Lemma split_obs_filter_mismatch_witness :
  split_obs (Tensor2 [[1]; [2]; [3]]%Z 1) (Tensor2 [[true]; [false]; [true]] 1)
            [true; false]
  = Raise IndexError.
Proof. apply split_obs_filter_mismatch. simpl. lia. Defined.

(** ** The pool and its samples *)

Section PoolSamples.
Context {Agent G : Type} `{RandomGenLaws G}.
Implicit Types (self : SelfPlayAssistant Agent G) (fs : gmap string Agent).

Lemma last_entries_fmap {A B : Type} (f : A -> B) (w : nat) (l : list A) :
  last_entries w (f <$> l) = f <$> last_entries w l.
Proof. unfold last_entries. by rewrite length_fmap, fmap_drop. Qed.

Lemma last_entries_elem {A : Type} (w : nat) (l : list A) (x : A) :
  x ∈ last_entries w l -> x ∈ l.
Proof.
  unfold last_entries. intros Hx.
  rewrite <- (take_drop (length l - w) l). apply elem_of_app. by right.
Qed.
End PoolSamples.

Lemma sample_opponent_empty_pool_aux {Agent G : Type} `{RandomGen G}
    (self : SelfPlayAssistant Agent G) (fs : gmap string Agent) :
  items (checkpoints self) = [] -> items (save_steps self) = [] ->
  sample_opponent self fs =
    if Qlt_le_dec (random (rnd self)).1 (self_play_prob self)
    then Raise IndexError else Raise ValueError.
Proof.
  intros Hc Hs. unfold sample_opponent, sample_id. rewrite Hc. simpl.
  destruct (random (rnd self)) as [u g]. simpl.
  destruct (Qlt_le_dec u (self_play_prob self)); simpl; [|done].
  unfold deque_getitem. rewrite Hs. done.
Qed.

(** X7. On an empty pool [sample_opponent] raises in both modes: IndexError
    at [self.save_steps[-1]] when the first draw is below
    [self_play_prob], ValueError at [randint(0, -1)] otherwise. *)
Theorem sample_opponent_empty_pool (Agent G : Type) `{RandomGen G}
    (self : SelfPlayAssistant Agent G) (fs : gmap string Agent) :
  items (checkpoints self) = [] -> items (save_steps self) = [] ->
  sample_opponent self fs =
    if Qlt_le_dec (random (rnd self)).1 (self_play_prob self)
    then Raise IndexError else Raise ValueError.
Proof. apply sample_opponent_empty_pool_aux. Qed.

Lemma sample_opponent_empty_pool_witness :
  sample_opponent
    {| checkpoint_freq := 5000; window := 10; replace_freq := 1000;
       self_play_prob := 7 # 10; checkpoints := Deque [] 10; save_steps := Deque [] 10;
       save_checkpoints := false; checkpoint_dir := "ckpt/"; seed := 1;
       rnd := 1%Z |} (∅ : gmap string nat)
  = if Qlt_le_dec (random (G := Z) 1%Z).1 (7 # 10)
    then Raise IndexError else Raise ValueError.
Proof. apply (sample_opponent_empty_pool nat Z); reflexivity. Defined.

(** X8. An assistant constructed with [window = 0] keeps an empty pool
    whatever is added to it, so that every [sample_opponent] after any
    sequence of [add_checkpoint] calls raises. *)
Theorem window_zero_never_samples (Agent G : Type) `{RandomGen G} (cf rf : Z) (p : Q)
    (save : bool) (dir : string) (seed_ : option Z) (g : G)
    (calls : list (Agent * step_arg)) (fs fs' : gmap string Agent) :
  exists (self0 : SelfPlayAssistant Agent G) (g' : G),
    init cf 0 rf p save dir seed_ g = Ok (self0, g') /\
    let self := (add_checkpoints self0 fs calls).1 in
    items (checkpoints self) = [] /\ items (save_steps self) = [] /\
    exists e, sample_opponent self fs' = Raise e /\ (e = IndexError \/ e = ValueError).
Proof.
  destruct (init_ok (Agent := Agent) cf 0 rf p save dir seed_ g)
    as (self0 & g' & Hinit & Hc0 & Hs0 & _); [lia|].
  exists self0, g'. split; [done|].
  destruct (add_checkpoints_spec 0 calls self0 fs [])
    as (_ & _ & Hc & Hs); [by rewrite Hc0 | by rewrite Hs0 | by rewrite Hc0
                           | by rewrite Hs0 |].
  cbv zeta. set (self := (add_checkpoints self0 fs calls).1) in *.
  assert (forall (A : Type) (l : list A), last_entries 0 l = []) as Hnil.
  { intros A l. unfold last_entries. rewrite Nat.sub_0_r. apply drop_all. }
  rewrite Hnil in Hc, Hs. split; [done|]. split; [done|].
  rewrite (sample_opponent_empty_pool_aux self fs' Hc Hs).
  destruct (Qlt_le_dec _ _); eauto.
Qed.

Section PoolModes.
Context {Agent G : Type} `{RandomGen G}.
Implicit Types (self : SelfPlayAssistant Agent G) (fs : gmap string Agent).

Lemma add_checkpoints_mode calls : forall self fs,
  save_checkpoints (add_checkpoints self fs calls).1 = save_checkpoints self /\
  checkpoint_dir (add_checkpoints self fs calls).1 = checkpoint_dir self /\
  self_play_prob (add_checkpoints self fs calls).1 = self_play_prob self /\
  rnd (add_checkpoints self fs calls).1 = rnd self.
Proof.
  induction calls as [|[a s] calls IH]; intros self fs; [done|]. simpl.
  destruct (add_checkpoint self fs a s) as [self1 fs1] eqn:E.
  destruct (IH self1 fs1) as (-> & -> & -> & ->).
  unfold add_checkpoint, update_pool in E.
  destruct (save_checkpoints self) eqn:Es; injection E as <- <-; simpl; by rewrite ?Es.
Qed.
End PoolModes.

(** X9. In memory mode, with [window >= 1] and after at least one
    [add_checkpoint], [sample_opponent] succeeds: it returns the network of
    one of the [window] most recent calls, prints the step of that same
    call, and leaves [checkpoints] and [save_steps] as they were. *)
Theorem sample_opponent_memory_pairing (Agent G : Type) `{RandomGenLaws G} (cf window_ rf : Z)
    (p : Q) (dir : string) (seed_ : option Z) (g : G)
    (calls : list (Agent * step_arg)) (fs fs' : gmap string Agent) :
  (1 <= window_)%Z -> calls <> [] ->
  exists (self0 : SelfPlayAssistant Agent G) (g' : G),
    init cf window_ rf p false dir seed_ g = Ok (self0, g') /\
    let self := (add_checkpoints self0 fs calls).1 in
    exists agent step k self',
      sample_opponent self fs' = Ok (Instance agent, self', (k, step_value step)) /\
      (agent, step) ∈ last_entries (Z.to_nat window_) calls /\
      last_entries (Z.to_nat window_) calls !! Z.to_nat k = Some (agent, step) /\
      checkpoints self' = checkpoints self /\ save_steps self' = save_steps self.
Proof.
  intros Hw Hcalls.
  destruct (init_ok (Agent := Agent) cf window_ rf p false dir seed_ g)
    as (self0 & g' & Hinit & Hc0 & Hs0 & Hsave0 & _); [lia|].
  exists self0, g'. split; [done|].
  destruct (add_checkpoints_spec (Z.to_nat window_) calls self0 fs [])
    as (_ & _ & Hc & Hs); [by rewrite Hc0 | by rewrite Hs0 | by rewrite Hc0
                           | by rewrite Hs0 |].
  destruct (add_checkpoints_mode calls self0 fs) as (Hmode & _).
  cbv zeta. set (self := (add_checkpoints self0 fs calls).1) in *.
  cbn [app] in Hc, Hs. rewrite last_entries_fmap in Hc. rewrite last_entries_fmap in Hs.
  set (L := last_entries (Z.to_nat window_) calls) in *.
  assert (L <> []) as HL.
  { intros HL. apply (f_equal length) in HL. subst L.
    rewrite length_last_entries in HL.
    destruct calls; [done|]. cbn [length] in HL. lia. }
  destruct (sample_opponent_memory self fs') as (k & g1 & e & t & _ & Hk & He & Ht & Hso).
  { by rewrite Hmode, Hsave0. }
  { rewrite Hc. by destruct L. }
  { by rewrite Hc, Hs, !length_fmap. }
  rewrite Hc, list_lookup_fmap in He. rewrite Hs, list_lookup_fmap in Ht.
  destruct (L !! Z.to_nat k) as [[agent step]|] eqn:EL; [|done].
  simpl in He, Ht. injection He as <-. injection Ht as <-.
  exists agent, step, k, (with_rnd self g1).
  split.
  { rewrite Hso. unfold pool_entry. by rewrite Hsave0. }
  split; [by eapply list_elem_of_lookup_2|]. done.
Qed.

Lemma sample_opponent_memory_pairing_witness :
  exists (self0 : SelfPlayAssistant nat Z) (g' : Z),
    init 5000 2 1000 (7 # 10) false "ckpt/" (Some 1%Z) 42%Z = Ok (self0, g') /\
    let self := (add_checkpoints self0 ∅ three_calls).1 in
    exists agent step k self',
      sample_opponent self ∅ = Ok (Instance agent, self', (k, step_value step)) /\
      (agent, step) ∈ last_entries (Z.to_nat 2) three_calls /\
      last_entries (Z.to_nat 2) three_calls !! Z.to_nat k = Some (agent, step) /\
      checkpoints self' = checkpoints self /\ save_steps self' = save_steps self.
Proof.
  apply (sample_opponent_memory_pairing nat Z); [lia | discriminate].
Defined.

(** X10. In disk mode with a pool of capacity 1 or more, [update_pool]
    leaves the storage and the pool such that loading the newest entry of
    [checkpoints] gives the agent just saved, under the name
    [checkpoint_<steps>.pt] in [checkpoint_dir]; the newest entry of
    [save_steps] is [steps]. *)
Theorem update_pool_disk_roundtrip (Agent G : Type) `{RandomGen G}
    (self : SelfPlayAssistant Agent G) (fs : gmap string Agent) (agent : Agent) (steps_ : Z) :
  save_checkpoints self = true ->
  0 < maxlen (checkpoints self) -> 0 < maxlen (save_steps self) ->
  let name := path_join (checkpoint_dir self)
                ("checkpoint_" +:+ pretty steps_ +:+ ".pt") in
  let self' := (update_pool self fs agent steps_).1 in
  let fs' := (update_pool self fs agent steps_).2 in
  last (items (checkpoints self')) = Some (Path name) /\
  last (items (save_steps self')) = Some steps_ /\
  torch_load fs' (Path name) = Ok agent /\
  (forall other, other <> name -> fs' !! other = fs !! other).
Proof.
  intros Hdisk Hmc Hms name self' fs'. subst self' fs'.
  unfold update_pool. rewrite Hdisk. simpl. fold name.
  assert (forall (A : Type) (d : deque A) (x : A),
            0 < maxlen d -> last (items (deque_append d x)) = Some x) as Hlast.
  { intros A d x Hd. unfold deque_append. simpl.
    destruct (decide (maxlen d < length (items d ++ [x]))) as [Hfull|];
      [|apply last_snoc].
    destruct (items d) as [|y l]; simpl.
    - simpl in Hfull. lia.
    - rewrite drop_0. apply last_snoc. }
  split; [by apply Hlast|]. split; [by apply Hlast|]. split.
  - by rewrite lookup_insert_eq.
  - intros other Hne. by rewrite lookup_insert_ne.
Qed.

Lemma update_pool_disk_roundtrip_witness :
  let name := path_join (checkpoint_dir disk_manager)
                ("checkpoint_" +:+ pretty 50000%Z +:+ ".pt") in
  let self' := (update_pool disk_manager ∅ 8 50000).1 in
  let fs' := (update_pool disk_manager ∅ 8 50000).2 in
  last (items (checkpoints self')) = Some (Path name) /\
  last (items (save_steps self')) = Some 50000%Z /\
  torch_load fs' (Path name) = Ok 8 /\
  (forall other, other <> name -> fs' !! other = (∅ : gmap string nat) !! other).
Proof.
  apply (update_pool_disk_roundtrip nat Z); [reflexivity | simpl; lia | simpl; lia].
Defined.

(** ** The cadences and the cursors of the rollout loop *)

(** X11. The test of the checkpoint and replace cadences, made after
    [global_step] went from [gs] to [gs + sum(train_ids)]: with a positive
    period it fires exactly when a multiple of the period lies in
    [(gs, gs + sum(train_ids)]], so never in a sub-step without a learning
    decision; with period 0 it raises ZeroDivisionError. *)
Theorem cadence_due_crossing (gs period : Z) (ids : list Z) :
  (period = 0%Z -> cadence_due (gs + tensor_sum ids) period ids = Raise ZeroDivisionError) /\
  ((0 < period)%Z ->
   exists b, cadence_due (gs + tensor_sum ids) period ids = Ok b /\
     (b = true <-> exists m : Z, (gs < m * period <= gs + tensor_sum ids)%Z) /\
     (tensor_sum ids = 0%Z -> b = false)).
Proof.
  split.
  - intros ->. done.
  - intros Hp. unfold cadence_due, py_mod.
    destruct (period =? 0)%Z eqn:E; [apply Z.eqb_eq in E; lia|]. simpl.
    eexists. split; [reflexivity|].
    set (g := (gs + tensor_sum ids)%Z).
    pose proof (Z.div_mod g period) as Hdm.
    pose proof (Z.mod_pos_bound g period Hp) as Hmod.
    split; [split|].
    + intros Hlt%Z.ltb_lt. exists (g `div` period)%Z. subst g. nia.
    + intros (m & Hlo & Hhi). apply Z.ltb_lt.
      assert (m <= g `div` period)%Z as Hm.
      { apply Z.div_le_lower_bound; [done|]. subst g. lia. }
      subst g. nia.
    + intros Hz. apply Z.ltb_ge. lia.
Qed.

Lemma cadence_due_crossing_witness :
  exists b, cadence_due (9999 + tensor_sum [1; 1]%Z) 10000 [1; 1]%Z = Ok b /\
    (b = true <-> exists m : Z, (9999 < m * 10000 <= 9999 + tensor_sum [1; 1]%Z)%Z) /\
    (tensor_sum [1; 1]%Z = 0%Z -> b = false).
Proof. apply (proj2 (cadence_due_crossing 9999 10000 [1; 1]%Z)). lia. Defined.

Lemma advance_global_step_spec {O M : Type} (gs : Z) (learning_player player : list Z)
    (obs : tensor2 O) (masks : tensor2 M) :
  wf_tensor2 obs -> wf_tensor2 masks -> 0 < ncols obs -> 0 < ncols masks ->
  length learning_player = length (rows obs) ->
  length player = length (rows obs) ->
  length (rows masks) = length (rows obs) ->
  advance_global_step gs (read_turn learning_player player) obs masks
    = Ok (gs + tensor_sum (train_ids (read_turn learning_player player)))%Z.
Proof.
  intros Hobs Hmasks HDo HDm Hl Hp Hm.
  unfold advance_global_step, split_obs, read_turn. simpl.
  assert (length (tensor_eq learning_player player) = length (rows obs)) as Hf.
  { unfold tensor_eq. rewrite length_zip_with. lia. }
  rewrite !split_tensor_spec by (done || lia). simpl.
  rewrite length_group_of_true by lia.
  rewrite tensor_sum_to_int.
  destruct (decide (0 < count_true (to_int <$> tensor_eq learning_player player)))
    as [|Hz]; [done|].
  f_equal. lia.
Qed.

Lemma tensor_sum_zip_add (x y : list Z) :
  length x = length y ->
  tensor_sum (zip_with Z.add x y) = (tensor_sum x + tensor_sum y)%Z.
Proof.
  revert y. induction x as [|a x IH]; intros [|b y] Hlen; simpl in *; try done.
  rewrite IH by lia. lia.
Qed.

Lemma substep_cursors_aux {F O : Type} `{Arith F} (cf rf ef : Z) (st st' : rollout F O)
    (r : step_result F O) (tr : triggers) (learning_player player : list Z) :
  tn st = read_turn learning_player player ->
  wf_tensor2 (next_obs st) -> wf_tensor2 (next_masks st) ->
  0 < ncols (next_obs st) -> 0 < ncols (next_masks st) ->
  length learning_player = length (rows (next_obs st)) ->
  length player = length (rows (next_obs st)) ->
  length (rows (next_masks st)) = length (rows (next_obs st)) ->
  length (steps st) = length (rows (next_obs st)) ->
  substep cf rf ef st r = Ok (st', tr) ->
  (forall i s, steps st !! i = Some s ->
     exists t, train_ids (tn st) !! i = Some t /\ (t = 0 \/ t = 1)%Z /\
               steps st' !! i = Some (s + t)%Z) /\
  (tensor_sum (steps st') - tensor_sum (steps st) = global_step st' - global_step st)%Z /\
  tn st' = read_turn (info_learning_player r) (info_player_id r).
Proof.
  intros Htn Hobs Hmasks HDo HDm Hl Hp Hm Hs Hsub.
  unfold substep in Hsub. rewrite Htn in Hsub.
  rewrite advance_global_step_spec in Hsub by done. cbn [bind] in Hsub.
  destruct (cadence_due _ cf _) as [cp|]; [|done]. cbn [bind] in Hsub.
  destruct (cadence_due _ rf _) as [rp|]; [|done]. cbn [bind] in Hsub.
  destruct (write_reward_done _ _ _ _ _ _) as [[rw dn]|]; [|done]. cbn [bind] in Hsub.
  destruct (eval_due _ ef _) as [ev|]; [|done]. cbn [bind] in Hsub.
  injection Hsub as <- <-. cbn [steps global_step tn]. rewrite Htn.
  assert (length (train_ids (read_turn learning_player player)) = length (steps st))
    as Hids.
  { unfold read_turn, tensor_eq. simpl. rewrite length_fmap, length_zip_with. lia. }
  split; [|split].
  - intros i s Hi.
    destruct (lookup_lt_is_Some_2 (train_ids (read_turn learning_player player)) i)
      as [t Ht].
    { apply lookup_lt_Some in Hi. lia. }
    exists t. split; [done|]. split.
    + unfold read_turn in Ht. simpl in Ht. rewrite list_lookup_fmap in Ht.
      destruct (tensor_eq learning_player player !! i) as [[]|]; simpl in Ht;
        try discriminate; injection Ht as <-; auto.
    + unfold read_turn in Ht. cbn [train_ids] in Ht.
      by rewrite lookup_zip_with, Hi, Ht.
  - rewrite tensor_sum_zip_add by done. lia.
  - done.
Qed.


(** X12. A sub-step that starts from turn data read from the environment
    and ends without error moves each cursor by the 0 or 1 of its
    environment in [train_ids], and [global_step] by the sum of these
    moves: the sum of the cursors and [global_step] grow by the same
    amount. *)
Theorem substep_cursors (F O : Type) `{Arith F} (cf rf ef : Z) (st st' : rollout F O)
    (r : step_result F O) (tr : triggers) (learning_player player : list Z) :
  tn st = read_turn learning_player player ->
  wf_tensor2 (next_obs st) -> wf_tensor2 (next_masks st) ->
  0 < ncols (next_obs st) -> 0 < ncols (next_masks st) ->
  length learning_player = length (rows (next_obs st)) ->
  length player = length (rows (next_obs st)) ->
  length (rows (next_masks st)) = length (rows (next_obs st)) ->
  length (steps st) = length (rows (next_obs st)) ->
  substep cf rf ef st r = Ok (st', tr) ->
  (forall i s, steps st !! i = Some s ->
     exists t, train_ids (tn st) !! i = Some t /\ (t = 0 \/ t = 1)%Z /\
               steps st' !! i = Some (s + t)%Z) /\
  (tensor_sum (steps st') - tensor_sum (steps st) = global_step st' - global_step st)%Z /\
  tn st' = read_turn (info_learning_player r) (info_player_id r).
Proof. apply substep_cursors_aux. Qed.

Lemma substep_cursors_witness :
  let st' := Rollout 10001 (Tensor2 [[3]; [4]]%Z 1) (Tensor2 [[true]; [true]] 1)
                     (read_turn [0; 0]%Z [1; 1]%Z) [1; 1]%Z zeros32 zeros32 in
  (forall i s, steps crossing_state !! i = Some s ->
     exists t, train_ids (tn crossing_state) !! i = Some t /\ (t = 0 \/ t = 1)%Z /\
               steps st' !! i = Some (s + t)%Z) /\
  (tensor_sum (steps st') - tensor_sum (steps crossing_state)
   = global_step st' - global_step crossing_state)%Z /\
  tn st' = read_turn (info_learning_player crossing_step) (info_player_id crossing_step).
Proof.
  intros st'.
  apply (substep_cursors Z Z 50000 10000 10000 crossing_state st' crossing_step
           (Triggers false true false) [0; 0]%Z [0; 0]%Z);
    try reflexivity; try (simpl; lia); repeat constructor.
Defined.

(** ** The minibatches of an epoch *)

Lemma take_min_length {A : Type} (a : nat) (x : list A) :
  take (a `min` length x) x = take a x.
Proof.
  destruct (decide (a <= length x)).
  - by rewrite Nat.min_l by lia.
  - rewrite Nat.min_r by lia. by rewrite firstn_all, take_ge by lia.
Qed.

(** A slice of [mb] entries from a multiple of [mb] on. *)
Lemma py_slice_chunk {A : Type} (l : list A) (mb k : nat) :
  py_slice l (Z.of_nat k * Z.of_nat mb) (Z.of_nat k * Z.of_nat mb + Z.of_nat mb)
  = take mb (drop (k * mb) l).
Proof.
  unfold py_slice, slice_bound.
  destruct (Z.of_nat k * Z.of_nat mb <? 0)%Z eqn:E1; [apply Z.ltb_lt in E1; lia|].
  destruct (Z.of_nat k * Z.of_nat mb + Z.of_nat mb <? 0)%Z eqn:E2;
    [apply Z.ltb_lt in E2; lia|].
  replace (Z.to_nat (Z.of_nat k * Z.of_nat mb)) with (k * mb) by lia.
  replace (Z.to_nat (Z.of_nat k * Z.of_nat mb + Z.of_nat mb)) with (k * mb + mb) by lia.
  destruct (decide (k * mb <= length l)) as [Hle|Hgt].
  - rewrite (Nat.min_l (k * mb)) by lia.
    replace ((k * mb + mb) `min` length l - k * mb)
      with (mb `min` length (drop (k * mb) l)) by (rewrite length_drop; lia).
    apply take_min_length.
  - rewrite !Nat.min_r by lia. rewrite Nat.sub_diag.
    rewrite (drop_ge l (k * mb)) by lia. by rewrite take_0, take_nil.
Qed.

Lemma concat_chunks {A : Type} (l : list A) (mb c : nat) :
  concat ((fun k => take mb (drop (k * mb) l)) <$> seq 0 c) = take (c * mb) l.
Proof.
  induction c as [|c IH]; [done|].
  rewrite seq_S, fmap_app, concat_app, IH. simpl. rewrite app_nil_r.
  rewrite take_take_drop. f_equal. lia.
Qed.

(** X13. With a positive [minibatch_size] the minibatches of an epoch
    split [b_inds] into consecutive parts: put together in order they are
    [b_inds], so that every transition is in exactly one minibatch; there
    are [ceil(n_transitions / minibatch_size)] of them, none empty and none
    longer than [minibatch_size]. *)
Theorem minibatches_partition (A : Type) (b_inds : list A) (minibatch_size : Z) :
  (0 < minibatch_size)%Z ->
  let n := Z.of_nat (length b_inds) in
  exists mbs, minibatches b_inds n minibatch_size = Ok mbs /\
    concat mbs = b_inds /\
    Z.of_nat (length mbs) = ((n + minibatch_size - 1) `div` minibatch_size)%Z /\
    Forall (fun mb => (0 < Z.of_nat (length mb) <= minibatch_size)%Z) mbs.
Proof.
  intros Hmb n. unfold minibatches, py_range.
  destruct (minibatch_size =? 0)%Z eqn:E0; [apply Z.eqb_eq in E0; lia|].
  replace (0 <? minibatch_size)%Z with true by (symmetry; by apply Z.ltb_lt).
  cbn [bind]. eexists. split; [reflexivity|].
  set (mb := Z.to_nat minibatch_size).
  set (c := Z.to_nat ((n - 0 + minibatch_size - 1) `div` minibatch_size)).
  assert (minibatch_size = Z.of_nat mb) as Hmbz by lia.
  assert (n <= Z.of_nat c * minibatch_size /\
          (Z.of_nat c - 1) * minibatch_size < n)%Z as [Hc1 Hc2].
  { pose proof (Z.div_mod (n - 0 + minibatch_size - 1) minibatch_size) as Hdm.
    pose proof (Z.mod_pos_bound (n - 0 + minibatch_size - 1) minibatch_size Hmb) as Hr.
    assert (0 <= (n - 0 + minibatch_size - 1) `div` minibatch_size)%Z as Hq.
    { apply Z.div_pos; lia. }
    subst c. rewrite Z2Nat.id by done. nia. }
  rewrite <- list_fmap_compose.
  assert (forall k, ((fun start => py_slice b_inds start (start + minibatch_size))
                      ∘ (fun k => (0 + Z.of_nat k * minibatch_size)%Z)) k
                    = take mb (drop (k * mb) b_inds)) as Hchunk.
  { intros k. simpl. rewrite Hmbz. apply py_slice_chunk. }
  assert (((fun start => py_slice b_inds start (start + minibatch_size))
             ∘ (fun k => (0 + Z.of_nat k * minibatch_size)%Z)) <$> seq 0 c
          = (fun k => take mb (drop (k * mb) b_inds)) <$> seq 0 c) as ->.
  { apply list_fmap_ext. intros i k _. apply Hchunk. }
  split; [|split].
  - rewrite concat_chunks. apply take_ge. nia.
  - rewrite length_fmap, length_seq. subst c.
    rewrite Z2Nat.id; [f_equal; lia|]. apply Z.div_pos; lia.
  - apply Forall_fmap, Forall_forall. intros k Hk%elem_of_seq. simpl.
    rewrite length_take, length_drop. nia.
Qed.

Lemma minibatches_partition_witness :
  exists mbs, minibatches [3; 1; 4; 1; 5]%Z (Z.of_nat (length [3; 1; 4; 1; 5]%Z)) 2 = Ok mbs /\
    concat mbs = [3; 1; 4; 1; 5]%Z /\
    Z.of_nat (length mbs) = ((Z.of_nat (length [3; 1; 4; 1; 5]%Z) + 2 - 1) `div` 2)%Z /\
    Forall (fun mb => (0 < Z.of_nat (length mb) <= 2)%Z) mbs.
Proof. apply (minibatches_partition Z [3; 1; 4; 1; 5]%Z 2). lia. Defined.

(** X14. When the batch is smaller than the number of minibatches
    ([0 <= num_envs * num_steps < num_minibatches]), [minibatch_size] is 0
    and the loop over the minibatches raises ValueError, whatever was
    collected; with [num_minibatches = 0] the sizes themselves raise
    ZeroDivisionError. *)
Theorem small_batch_fails (A : Type) (num_envs num_steps num_minibatches : Z)
    (b_inds : list A) (n_transitions : Z) :
  (derived_sizes num_envs num_steps 0 = Raise ZeroDivisionError) /\
  ((0 <= num_envs * num_steps < num_minibatches)%Z ->
   derived_sizes num_envs num_steps num_minibatches = Ok ((num_envs * num_steps)%Z, 0%Z) /\
   minibatches b_inds n_transitions 0 = Raise ValueError).
Proof.
  split; [done|]. intros Hsmall. split; [|done].
  unfold derived_sizes, py_floordiv.
  destruct (num_minibatches =? 0)%Z eqn:E; [apply Z.eqb_eq in E; lia|].
  cbn [bind]. by rewrite Z.div_small.
Qed.

Lemma small_batch_fails_witness :
  derived_sizes 1 2 4 = Ok ((1 * 2)%Z, 0%Z) /\
  minibatches [0; 1]%Z 2 0 = Raise ValueError.
Proof. apply (proj2 (small_batch_fails Z 1 2 4 [0; 1]%Z 2)). lia. Defined.

(** ** Flattening the batch *)

Lemma tensor_sum_take_S (l : list Z) (k : nat) (s : Z) :
  l !! k = Some s -> tensor_sum (take (S k) l) = (tensor_sum (take k l) + s)%Z.
Proof.
  revert k. induction l as [|a l IH]; intros [|k] Hk; simpl in *; try done.
  - injection Hk as ->. lia.
  - rewrite (IH k Hk). lia.
Qed.

Lemma tensor_sum_take_le (l : list Z) (k : nat) :
  Forall (fun s => 0 <= s)%Z l ->
  (0 <= tensor_sum (take k l) <= tensor_sum l)%Z.
Proof.
  intros Hl. revert k. induction Hl as [|a l Ha Hl IH]; intros [|k]; simpl; try lia.
  - specialize (IH 0). rewrite take_0 in IH. simpl in IH. lia.
  - specialize (IH k). lia.
Qed.

Section FlattenFacts.
Context {V : Type}.
Implicit Types (buf : buffer V) (b src : list V).

Lemma omap_cons_Some {A B : Type} (f : A -> option B) (x : A) (y : B) (l : list A) :
  f x = Some y -> omap f (x :: l) = y :: omap f l.
Proof. intros Hf. simpl. by rewrite Hf. Qed.

Lemma collect_column buf i :
  Forall (fun row => i < length row) buf ->
  length (omap (fun row => row !! i) buf) = length buf /\
  forall n, collect ((fun row => getitem row i) <$> take n buf)
            = Ok (take n (omap (fun row => row !! i) buf)).
Proof.
  induction 1 as [|row buf Hrow Hbuf [IHlen IH]]; [split; [done|by intros []]|].
  destruct (getitem_lt row i Hrow) as (x & Hx & Hx').
  rewrite (omap_cons_Some (fun row : list V => row !! i) row x buf Hx').
  split.
  - simpl. by rewrite IHlen.
  - intros [|n]; [done|]. cbn [take fmap list_fmap collect]. rewrite Hx. cbn [bind].
    change (list_fmap _ _ ?f ?l) with (f <$> l). by rewrite IH.
Qed.

Lemma column_prefix_spec buf T N i s :
  shape buf T N -> i < N -> (0 <= s <= Z.of_nat T)%Z ->
  column_prefix buf s i = Ok (env_prefix buf i s) /\
  length (env_prefix buf i s) = Z.to_nat s.
Proof.
  intros [HT HN] Hi Hs.
  destruct (collect_column buf i) as [Hlen Hcol].
  { eapply Forall_impl; [exact HN|]. simpl. intros row ->. done. }
  unfold column_prefix, env_prefix, py_slice, slice_bound.
  destruct (0 <? 0)%Z eqn:E0; [done|].
  destruct (s <? 0)%Z eqn:Es; [apply Z.ltb_lt in Es; lia|].
  rewrite HT. simpl Z.to_nat. rewrite Nat.min_0_l, drop_0, Nat.sub_0_r.
  rewrite (Nat.min_l (Z.to_nat s)) by lia.
  split; [apply Hcol|]. rewrite length_take, Hlen. lia.
Qed.

Lemma slice_assign_spec b lo src :
  (0 <= lo)%Z -> (lo + Z.of_nat (length src) <= Z.of_nat (length b))%Z ->
  slice_assign b lo (lo + Z.of_nat (length src)) src
  = Ok (take (Z.to_nat lo) b ++ src ++ drop (Z.to_nat lo + length src) b).
Proof.
  intros Hlo Hhi. unfold slice_assign, slice_bound.
  destruct (lo <? 0)%Z eqn:E1; [apply Z.ltb_lt in E1; lia|].
  destruct (lo + Z.of_nat (length src) <? 0)%Z eqn:E2; [apply Z.ltb_lt in E2; lia|].
  rewrite !Nat.min_l by lia.
  replace (Z.to_nat (lo + Z.of_nat (length src)) - Z.to_nat lo) with (length src) by lia.
  destruct (decide (length src = length src)); done.
Qed.

(** The loop from environment [k] on: [filled] is what the environments
    before [k] filled. *)
Lemma flatten_loop_spec (zero : V) buf T N steps_ :
  shape buf T N -> length steps_ = N ->
  Forall (fun s => 0 <= s <= Z.of_nat T)%Z steps_ ->
  forall m k filled j,
    k + m = N ->
    length filled = Z.to_nat (tensor_sum (take k steps_)) ->
    j = (if decide (k = 0) then 0%Z else tensor_sum (take (k - 1) steps_)) ->
    flatten_loop
      (filled ++ replicate (Z.to_nat (tensor_sum steps_ - tensor_sum (take k steps_))) zero)
      buf steps_ (seq k m) j
    = Ok (filled ++ concat (zip_with (env_prefix buf) (seq k m) (drop k steps_))).
Proof.
  intros Hsh Hlen Hsteps.
  assert (Forall (fun s => 0 <= s)%Z steps_) as Hnn.
  { eapply Forall_impl; [exact Hsteps|]. simpl. lia. }
  induction m as [|m IH]; intros k filled j Hk Hdone Hj.
  - simpl. rewrite take_ge by lia. rewrite Z.sub_diag. simpl. by rewrite !app_nil_r.
  - destruct (lookup_lt_is_Some_2 steps_ k) as [s Hs]; [lia|].
    assert (0 <= s <= Z.of_nat T)%Z as Hsb.
    { rewrite Forall_forall in Hsteps. apply Hsteps. by eapply list_elem_of_lookup_2. }
    pose proof (tensor_sum_take_S steps_ k s Hs) as HS.
    pose proof (tensor_sum_take_le steps_ k Hnn) as Hk0.
    pose proof (tensor_sum_take_le steps_ (S k) Hnn) as Hk1.
    assert ((if decide (k = 0) then Ok j
             else let* p := getitem steps_ (k - 1) in Ok (j + p)%Z)
            = Ok (tensor_sum (take k steps_))) as Hj'.
    { destruct (decide (k = 0)) as [->|Hne]; [by subst j|].
      destruct (lookup_lt_is_Some_2 steps_ (k - 1)) as [p Hp]; [lia|].
      rewrite (proj2 (getitem_Ok _ _ _) Hp). cbn [bind]. subst j.
      pose proof (tensor_sum_take_S steps_ (k - 1) p Hp) as HSp.
      replace (S (k - 1)) with k in HSp by lia. by rewrite HSp. }
    destruct (column_prefix_spec buf T N k s Hsh) as [Hcol Hcl]; [lia | done |].
    cbn [seq flatten_loop]. rewrite Hj'. cbn [bind].
    rewrite (proj2 (getitem_Ok _ _ _) Hs). cbn [bind]. rewrite Hcol. cbn [bind].
    set (src := env_prefix buf k s) in *.
    replace s with (Z.of_nat (length src)) at 1 by lia.
    rewrite slice_assign_spec; [|lia|rewrite length_app, length_replicate; lia].
    cbn [bind].
    rewrite <- Hdone, take_app_length.
    rewrite drop_app_ge by lia.
    replace (length filled + length src - length filled) with (length src) by lia.
    rewrite drop_replicate.
    replace (Z.to_nat (tensor_sum steps_ - tensor_sum (take k steps_)) - length src)
      with (Z.to_nat (tensor_sum steps_ - tensor_sum (take (S k) steps_))) by lia.
    rewrite (assoc_L (++) filled src).
    rewrite (IH (S k) (filled ++ src) (tensor_sum (take k steps_))); cycle 1.
    + lia.
    + rewrite length_app. lia.
    + destruct (decide (S k = 0)); [lia|]. by replace (S k - 1) with k by lia.
    + rewrite (drop_S steps_ s k Hs). simpl. by rewrite <- (assoc_L (++)).
Qed.
End FlattenFacts.

Lemma length_prefixes {V : Type} (buf : buffer V) (T N : nat) :
  shape buf T N ->
  forall (steps_ : list Z) (k : nat),
    k + length steps_ <= N ->
    Forall (fun s => 0 <= s <= Z.of_nat T)%Z steps_ ->
    Z.of_nat (length (concat (zip_with (env_prefix buf) (seq k (length steps_)) steps_)))
    = tensor_sum steps_.
Proof.
  intros Hsh. induction steps_ as [|s steps_ IH]; intros k Hk Hsteps; [done|].
  apply Forall_cons in Hsteps as [Hs Hsteps]. simpl in Hk. simpl.
  rewrite length_app, Nat2Z.inj_add, (IH (S k)) by (done || lia).
  destruct (column_prefix_spec buf T N k s Hsh) as [_ ->]; [lia | done |]. lia.
Qed.

(** X15. Flattening a buffer of [T] rows and [N] environments whose
    cursors lie in [[0, T]] succeeds and gives, environment after
    environment, the first [steps[i]] rows of each environment [i], and
    nothing else: [sum(steps)] rows in all, [steps[i]] of them from
    environment [i]. *)
Theorem flatten_concat (V : Type) (zero : V) (buf : buffer V) (T N : nat) (steps_ : list Z) :
  shape buf T N -> length steps_ = N ->
  Forall (fun s => 0 <= s <= Z.of_nat T)%Z steps_ ->
  exists b, flatten zero buf steps_ = Ok b /\
    b = concat (zip_with (env_prefix buf) (seq 0 N) steps_) /\
    Z.of_nat (length b) = tensor_sum steps_ /\
    (forall i s, steps_ !! i = Some s -> length (env_prefix buf i s) = Z.to_nat s).
Proof.
  intros Hsh Hlen Hsteps.
  assert (Forall (fun s => 0 <= s)%Z steps_) as Hnn.
  { eapply Forall_impl; [exact Hsteps|]. simpl. lia. }
  pose proof (tensor_sum_take_le steps_ 0 Hnn) as Hsum. rewrite take_0 in Hsum.
  simpl in Hsum.
  pose proof (flatten_loop_spec zero buf T N steps_ Hsh Hlen Hsteps N 0 [] 0%Z) as Hloop.
  rewrite take_0, drop_0 in Hloop. simpl in Hloop. rewrite Z.sub_0_r in Hloop.
  specialize (Hloop eq_refl eq_refl eq_refl).
  eexists. split; [|split; [reflexivity|split]].
  - unfold flatten. destruct (tensor_sum steps_ <? 0)%Z eqn:E; [apply Z.ltb_lt in E; lia|].
    rewrite Hlen. exact Hloop.
  - rewrite <- Hlen. apply (length_prefixes buf T N Hsh); [lia | done].
  - intros i s Hs.
    apply (column_prefix_spec buf T N i s Hsh).
    + apply lookup_lt_Some in Hs. lia.
    + rewrite Forall_forall in Hsteps. apply Hsteps. by eapply list_elem_of_lookup_2.
Qed.

Lemma flatten_concat_witness :
  exists b,
    flatten 0%Z [[1; 2; 3]; [4; 5; 6]; [7; 8; 9]; [10; 11; 12]; [13; 14; 15]]%Z [3; 5; 0]%Z
      = Ok b /\
    b = concat (zip_with
                  (env_prefix [[1; 2; 3]; [4; 5; 6]; [7; 8; 9]; [10; 11; 12]; [13; 14; 15]]%Z)
                  (seq 0 3) [3; 5; 0]%Z) /\
    Z.of_nat (length b) = tensor_sum [3; 5; 0]%Z /\
    (forall i s, [3; 5; 0]%Z !! i = Some s ->
       length (env_prefix [[1; 2; 3]; [4; 5; 6]; [7; 8; 9]; [10; 11; 12]; [13; 14; 15]]%Z
                          i s) = Z.to_nat s).
Proof.
  apply (flatten_concat Z 0%Z _ 5 3).
  - split; [reflexivity | repeat constructor].
  - reflexivity.
  - repeat constructor; lia.
Defined.

(** ** A segment of the rollout *)

Lemma tensor_max_spec (t : list Z) (m : Z) :
  tensor_max t = Ok m -> Forall (fun s => s <= m)%Z t /\ m ∈ t.
Proof.
  destruct t as [|x t]; [done|]. simpl. intros [= <-].
  induction t as [|y t [IH1 IH2]]; simpl.
  - split; [repeat constructor; lia | set_solver].
  - apply Forall_cons in IH1 as [Hx Ht]. split.
    + repeat apply Forall_cons_2; try lia.
      eapply Forall_impl; [exact Ht|]. simpl. lia.
    + destruct (Z.max_spec y (foldr Z.max x t)) as [[_ ->]|[_ ->]]; set_solver.
Qed.

Section SegmentFacts.
Context {F O : Type} `{Arith F}.

(** Along a segment the cursors stay between 0 and [step], [step] stays
    at [num_steps] at most, and the sum of the cursors moves with
    [global_step]. *)
Lemma rollout_segment_spec (N : nat) (num_steps cf rf ef : Z) :
  forall (responses : list (step_result F O)) (st st' : rollout F O) (step step' : Z)
         (learning_player player : list Z),
    Forall (response_shaped N) responses ->
    tn st = read_turn learning_player player ->
    turn_shaped N (next_obs st) (next_masks st) learning_player player ->
    length (steps st) = N ->
    Forall (fun s => 0 <= s <= step)%Z (steps st) ->
    (0 <= step <= Z.max 0 num_steps)%Z ->
    rollout_segment num_steps cf rf ef st step responses = Ok (st', step') ->
    length (steps st') = N /\
    Forall (fun s => 0 <= s <= step')%Z (steps st') /\
    (0 <= step' <= Z.max 0 num_steps)%Z /\
    (tensor_sum (steps st') - tensor_sum (steps st)
     = global_step st' - global_step st)%Z.
Proof.
  induction responses as [|r responses IH];
    intros st st' step step' lp pl Hresp Htn Hshape Hlen Hsteps Hstep Hseg.
  - simpl in Hseg. injection Hseg as <- <-. repeat split; try done; lia.
  - apply Forall_cons in Hresp as [Hr Hresp]. simpl in Hseg.
    destruct (step <? num_steps)%Z eqn:Elt;
      [|injection Hseg as <- <-; repeat split; try done; lia].
    apply Z.ltb_lt in Elt.
    destruct (substep cf rf ef st r) as [[st1 tr]|] eqn:Esub; [|done]. cbn [bind] in Hseg.
    destruct (tensor_max (steps st1)) as [step1|] eqn:Emax; [|done]. cbn [bind] in Hseg.
    destruct Hshape as (Hwo & Hwm & HDo & HDm & Hro & Hrm & Hlp & Hpl).
    destruct (substep_cursors_aux cf rf ef st st1 r tr lp pl)
      as (Hmove & Hsum & Htn1); try done; try lia.
    assert (steps st1 = zip_with Z.add (steps st) (train_ids (tn st))) as Hst1.
    { unfold substep in Esub.
      destruct (advance_global_step _ _ _ _); [|done]. cbn [bind] in Esub.
      destruct (cadence_due _ cf _); [|done]. cbn [bind] in Esub.
      destruct (cadence_due _ rf _); [|done]. cbn [bind] in Esub.
      destruct (write_reward_done _ _ _ _ _ _) as [[rw dn]|]; [|done].
      cbn [bind] in Esub.
      destruct (eval_due _ ef _); [|done]. cbn [bind] in Esub.
      by injection Esub as <- _. }
    assert (next_obs st1 = step_obs r /\ next_masks st1 = info_action_mask r) as [Ho1 Hm1].
    { unfold substep in Esub.
      destruct (advance_global_step _ _ _ _); [|done]. cbn [bind] in Esub.
      destruct (cadence_due _ cf _); [|done]. cbn [bind] in Esub.
      destruct (cadence_due _ rf _); [|done]. cbn [bind] in Esub.
      destruct (write_reward_done _ _ _ _ _ _) as [[rw dn]|]; [|done].
      cbn [bind] in Esub.
      destruct (eval_due _ ef _); [|done]. cbn [bind] in Esub.
      by injection Esub as <- _. }
    assert (length (steps st1) = N) as Hlen1.
    { rewrite Hst1, length_zip_with, Htn. unfold read_turn, tensor_eq. simpl.
      rewrite length_fmap, length_zip_with. lia. }
    assert (Forall (fun s => 0 <= s <= step + 1)%Z (steps st1)) as Hb1.
    { apply Forall_forall. intros s1 Hs1.
      apply list_elem_of_lookup in Hs1 as [i Hi].
      destruct (lookup_lt_is_Some_2 (steps st) i) as [s Hs].
      { apply lookup_lt_Some in Hi. lia. }
      destruct (Hmove i s Hs) as (t & _ & Ht & Hi').
      rewrite Forall_forall in Hsteps.
      specialize (Hsteps s (list_elem_of_lookup_2 _ _ _ Hs)).
      assert (s1 = (s + t)%Z) as -> by congruence. lia. }
    destruct (tensor_max_spec _ _ Emax) as [Hmax Hin].
    assert (0 <= step1 <= step + 1)%Z as Hstep1.
    { rewrite Forall_forall in Hb1. by apply Hb1. }
    destruct (IH st1 st' step1 step' (info_learning_player r) (info_player_id r))
      as (Hl' & Hb' & Hs' & Hsum'); try done.
    + by rewrite Ho1, Hm1.
    + apply Forall_forall. intros s Hs. rewrite Forall_forall in Hb1, Hmax.
      specialize (Hb1 s Hs). specialize (Hmax s Hs). lia.
    + lia.
    + repeat split; try done; lia.
Qed.
End SegmentFacts.

(** X16. A segment that starts with all cursors at 0 and runs along
    well-shaped answers of the environment, as far as they go and without
    error, leaves every cursor between 0 and [num_steps] (so that the
    cursors index the rows of buffers of [num_steps] rows while the loop
    runs, and the batch can be flattened after it), and the sum of the
    cursors, the number of rows of the batch, is the growth of
    [global_step] over the segment. *)
Theorem rollout_segment_cursors (F O : Type) `{Arith F} (N : nat) (num_steps cf rf ef : Z)
    (responses : list (step_result F O)) (st st' : rollout F O) (step' : Z)
    (learning_player player : list Z) :
  (0 <= num_steps)%Z ->
  Forall (response_shaped N) responses ->
  tn st = read_turn learning_player player ->
  turn_shaped N (next_obs st) (next_masks st) learning_player player ->
  steps st = replicate N 0%Z ->
  rollout_segment num_steps cf rf ef st 0 responses = Ok (st', step') ->
  length (steps st') = N /\
  Forall (fun s => 0 <= s <= num_steps)%Z (steps st') /\
  tensor_sum (steps st') = (global_step st' - global_step st)%Z.
Proof.
  intros Hn Hresp Htn Hshape Hsteps Hseg.
  destruct (rollout_segment_spec N num_steps cf rf ef responses st st' 0 step'
              learning_player player)
    as (Hlen & Hb & Hstep & Hsum); try done.
  - rewrite Hsteps. apply length_replicate.
  - rewrite Hsteps. apply Forall_replicate. lia.
  - lia.
  - split; [done|]. split.
    + eapply Forall_impl; [exact Hb|]. simpl. lia.
    + assert (tensor_sum (steps st) = 0%Z) as Hz; [|lia].
      rewrite Hsteps. clear. induction N as [|n IH]; [done|]. simpl. lia.
Qed.

Lemma rollout_segment_cursors_witness :
  let st' := Rollout 2 (Tensor2 [[3]; [4]]%Z 1) (Tensor2 [[true]; [true]] 1)
                     (read_turn [0; 0]%Z [1; 1]%Z) [1; 1]%Z zeros32 zeros32 in
  length (steps st') = 2 /\
  Forall (fun s => 0 <= s <= 1)%Z (steps st') /\
  tensor_sum (steps st') = (global_step st' - 0)%Z.
Proof.
  intros st'.
  apply (rollout_segment_cursors Z Z 2 1 50000 10000 10000
           [crossing_step; crossing_step]
           (Rollout 0 (Tensor2 [[1]; [2]]%Z 1) (Tensor2 [[true]; [true]] 1)
                    (read_turn [0; 0]%Z [0; 0]%Z) [0; 0]%Z zeros32 zeros32)
           st' 1 [0; 0]%Z [0; 0]%Z).
  - lia.
  - repeat constructor.
  - reflexivity.
  - repeat constructor.
  - reflexivity.
  - reflexivity.
Defined.
